(** * node-clone-git: one folder per branch

    A shallow embedding of [src/index.js] and the properties of its two
    operations, [cloneBranchToFolder] (materialise one branch) and
    [cloneRepository] (mirror a repository).

    JavaScript strings are modelled by [string]; the characters the program
    inspects (the separators, the prefix [refs/heads/], the illegal path
    characters) are all ASCII.  Exceptions are modelled by the [Threw]
    outcome, [undefined] by [None]. *)

From Stdlib Require Import String Ascii List Bool Arith.
Import ListNotations.

Local Open Scope list_scope.
Local Open Scope string_scope.

(** ** Outcomes of a JavaScript computation *)

Definition Error := string.

Inductive Outcome (A : Type) : Type :=
| Returned (a : A)
| Threw (error : Error).
Arguments Returned {A} a.
Arguments Threw {A} error.

(** ** The built-ins of the language the program calls *)

Module JS.

Definition TAB : ascii := "009"%char.
Definition NL : ascii := "010"%char.

(** [s.startsWith(searchString)] *)
Definition startsWith (s searchString : string) : bool :=
  String.prefix searchString s.

(** [s.includes(searchString)] *)
Fixpoint includes (s searchString : string) : bool :=
  startsWith s searchString ||
  match s with
  | EmptyString => false
  | String _ rest => includes rest searchString
  end.

(** [s.split(sep)] for a separator of one character, which is how the
    program calls it. The result always has at least one field. *)
Fixpoint split (sep : ascii) (s : string) : list string :=
  match s with
  | EmptyString => [EmptyString]
  | String c rest =>
      if Ascii.eqb c sep then EmptyString :: split sep rest
      else match split sep rest with
           | field :: fields => String c field :: fields
           | [] => [String c EmptyString]
           end
  end.

Fixpoint drop (n : nat) (s : string) : string :=
  match n, s with
  | S n', String _ rest => drop n' rest
  | _, _ => s
  end.

(** [s.replace(pattern, replacement)] with a string pattern: only the
    first occurrence is replaced. (The replacement the program passes is
    the empty string, so [$]-patterns do not arise.) *)
Fixpoint replace (s pattern replacement : string) : string :=
  if startsWith s pattern then replacement ++ drop (String.length pattern) s
  else match s with
       | EmptyString => EmptyString
       | String c rest => String c (replace rest pattern replacement)
       end.

(** [s.replace(/[...]/g, replacement)]: every character of the class is
    replaced. *)
Fixpoint replaceClass (class : ascii -> bool) (replacement : string)
         (s : string) : string :=
  match s with
  | EmptyString => EmptyString
  | String c rest =>
      (if class c then replacement else String c EmptyString)
        ++ replaceClass class replacement rest
  end.

(** Truthiness of a value that is a string or [undefined]. *)
Definition truthy (v : option string) : bool :=
  match v with
  | Some (String _ _) => true
  | _ => false
  end.

(** [xs.includes(x)] on an array of strings *)
Definition arrayIncludes (xs : list string) (x : string) : bool :=
  existsb (String.eqb x) xs.

(** [xs.map(f)] where [f] may throw: the first exception aborts the map. *)
Fixpoint mapThrowing {A B : Type} (f : A -> Outcome B) (xs : list A)
  : Outcome (list B) :=
  match xs with
  | [] => Returned []
  | x :: rest =>
      match f x with
      | Threw e => Threw e
      | Returned y =>
          match mapThrowing f rest with
          | Threw e => Threw e
          | Returned ys => Returned (y :: ys)
          end
      end
  end.

End JS.

(** ** [sanitizeFolderName] (index.js, lines 23-25) *)

(** The character class of the regular expression: less-than, greater-than,
    colon, double quote (code 34), slash, backslash (code 92), bar, question
    mark and star. *)
Definition illegalChars : list ascii :=
  ["<"; ">"; ":"; "034"; "/"; "092"; "|"; "?"; "*"]%char.

Definition illegal (c : ascii) : bool := existsb (Ascii.eqb c) illegalChars.

Definition sanitizeFolderName (name : string) : string :=
  JS.replaceClass illegal "_" name.

(** ** Parsing the ref listing (index.js, lines 108-112) *)

Definition headsPrefix : string := "refs/heads/".

(** [branch.replace('refs/heads/', '')]; on [undefined] the call is a
    [TypeError]. *)
Definition stripHeads (branch : option string) : Outcome string :=
  match branch with
  | Some b => Returned (JS.replace b headsPrefix "")
  | None => Threw "TypeError: Cannot read properties of undefined"
  end.

Definition parseRemoteBranchNames (remoteBranches : string)
  : Outcome (list string) :=
  let lines := JS.split JS.NL remoteBranches in
  let fields := map (fun line => nth_error (JS.split JS.TAB line) 1) lines in
  let heads :=
    filter (fun branch =>
              JS.truthy branch &&
              match branch with
              | Some b => JS.startsWith b headsPrefix
              | None => false
              end) fields in
  JS.mapThrowing stripHeads heads.

(** The same computation, following the words of the specification: split
    the text into lines, keep the second tab-separated field of each line,
    keep the fields that carry the prefix, strip the prefix. *)
Module BranchSetSpec.

Definition lines (text : string) : list string := JS.split JS.NL text.

Definition secondField (line : string) : option string :=
  match JS.split JS.TAB line with
  | _ :: field :: _ => Some field
  | _ => None
  end.

(** [stripPrefix p s = Some r] exactly when [s] is [p] followed by [r]. *)
Fixpoint stripPrefix (p s : string) : option string :=
  match p, s with
  | EmptyString, _ => Some s
  | String a p', String b s' =>
      if Ascii.eqb a b then stripPrefix p' s' else None
  | String _ _, EmptyString => None
  end.

Definition headOfLine (line : string) : option string :=
  match secondField line with
  | Some field => stripPrefix headsPrefix field
  | None => None
  end.

Fixpoint keep {A : Type} (xs : list (option A)) : list A :=
  match xs with
  | [] => []
  | Some x :: rest => x :: keep rest
  | None :: rest => keep rest
  end.

Definition branchSet (text : string) : list string :=
  keep (map headOfLine (lines text)).

End BranchSetSpec.

(** ** The collaborators: file system, path library and git backend *)

(** The calls the program makes on its [simple-git] handle. *)
Inductive GitCommand : Type :=
| Init
| Raw (args : list string)
| Fetch
| Checkout (args : list string).

(** What the program needs from its host. [W] is the state of everything
    outside the program: the disk and the repositories on it, the remote.
    Every call may throw and may change the world in any way. *)
Class Host (W : Type) : Type := {
  path_join : string -> string -> string;
  existsSync : string -> W -> bool;
  mkdirSync : string -> W -> Outcome unit * W;
  git_exec : string -> GitCommand -> W -> Outcome string * W
}.

(** ** The logging sink *)

Inductive Level : Type := info | warn | error.

(** One constructor per [logger] call of the source, with the values the
    message interpolates or carries as payload. *)
Inductive Message : Type :=
| SubfolderExists (branchFolderPath : string)
| CreatedSubfolder (branchFolderPath : string)
| InitializingSubfolder (branchFolderPath : string)
| RemoteOriginExists
| AddingRemoteOrigin
| CheckingOut (branchName branchFolderPath : string)
| CheckedOut (branchName branchFolderPath : string)
| ErrorCloningBranch (branchName : string) (err : Error)
| FolderMissing (repoFolderPath : string)
| InitializingFolder (repoFolderPath : string)
| FetchingBranchInformation
| CouldNotFetchBranchInformation
| NoRemoteBranchesFound
| RemoteBranches (remoteBranchNames : list string)
| ErrorCloningRepository (err : Error).

(** The text of each message, as the source formats it (payloads apart). *)
Definition render (m : Message) : string :=
  match m with
  | SubfolderExists p =>
      "The subfolder " ++ p ++ " already exists. Skipping branch cloning."
  | CreatedSubfolder p => "Created subfolder " ++ p
  | InitializingSubfolder p => "Initializing git repository in " ++ p
  | RemoteOriginExists => "Remote 'origin' exists, updating remote URL."
  | AddingRemoteOrigin => "Adding new remote 'origin'."
  | CheckingOut b p =>
      "Checking out branch " ++ b ++ " into subfolder " ++ p
  | CheckedOut b p => "Branch " ++ b ++ " has been checked out into " ++ p
  | ErrorCloningBranch b _ => "Error cloning branch " ++ b ++ ":"
  | FolderMissing p => "The folder " ++ p ++ " does not exist. Creating it..."
  | InitializingFolder p =>
      "Initializing git repository in folder " ++ p ++ "..."
  | FetchingBranchInformation => "Fetching remote branch information..."
  | CouldNotFetchBranchInformation =>
      "Could not fetch branch information from the remote repository."
  | NoRemoteBranchesFound => "No remote branches found."
  | RemoteBranches _ => "Remote branches:"
  | ErrorCloningRepository _ => "Error cloning repository:"
  end.

(** ** Effects: a state and exception monad with a trace *)

(** Everything the program does to the outside, in the order it does it. *)
Inductive Event : Type :=
| FsExists (path : string)
| FsMkdir (path : string)
| Git (cwd : string) (command : GitCommand)
| Log (level : Level) (message : Message).

(** [gitCwd] is the working directory of the one shared git handle, which
    [git.cwd(path)] reassigns before every command. *)
Record State (W : Type) : Type := mkState {
  world : W;
  gitCwd : string;
  trace : list Event
}.
Arguments mkState {W} world gitCwd trace.
Arguments world {W} s.
Arguments gitCwd {W} s.
Arguments trace {W} s.

Definition M (W A : Type) : Type := State W -> Outcome A * State W.

Definition ret {W A : Type} (a : A) : M W A := fun s => (Returned a, s).

Definition throw {W A : Type} (e : Error) : M W A := fun s => (Threw e, s).

Definition bind {W A B : Type} (c : M W A) (k : A -> M W B) : M W B :=
  fun s =>
    match c s with
    | (Returned a, s') => k a s'
    | (Threw e, s') => (Threw e, s')
    end.

Declare Scope js_scope.
Delimit Scope js_scope with js.
Notation "x <- c ;; k" := (bind c (fun x => k))
  (at level 61, c at next level, right associativity) : js_scope.
Notation "c ;; k" := (bind c (fun _ => k))
  (at level 61, right associativity) : js_scope.
Local Open Scope js_scope.

(** [try { body } catch (error) { handler(error) }] *)
Definition tryCatch {W A : Type} (body : M W A) (handler : Error -> M W A)
  : M W A :=
  fun s =>
    match body s with
    | (Returned a, s') => (Returned a, s')
    | (Threw e, s') => handler e s'
    end.

(** [for (const x of xs) { await body(x) }]: an exception leaves the loop. *)
Fixpoint forOf {W A : Type} (xs : list A) (body : A -> M W unit) : M W unit :=
  match xs with
  | [] => ret tt
  | x :: rest => body x ;; forOf rest body
  end.

Definition liftOutcome {W A : Type} (o : Outcome A) : M W A :=
  fun s => (o, s).

Definition record {W : Type} (e : Event) (s : State W) : State W :=
  mkState (world s) (gitCwd s) (trace s ++ [e])%list.

Section Program.

Context {W : Type} {host : Host W}.

Definition fs_existsSync (path : string) : M W bool :=
  fun s => (Returned (existsSync path (world s)), record (FsExists path) s).

(** [fs.mkdirSync(path, { recursive: true })] *)
Definition fs_mkdirSync (path : string) : M W unit :=
  fun s =>
    let (r, w) := mkdirSync path (world s) in
    (r, mkState w (gitCwd s) (trace s ++ [FsMkdir path])%list).

(** [git.cwd(path)] *)
Definition git_cwd (path : string) : M W unit :=
  fun s => (Returned tt, mkState (world s) path (trace s)).

(** A command on the shared handle, run in its current directory. *)
Definition git_run (command : GitCommand) : M W string :=
  fun s =>
    let (r, w) := git_exec (gitCwd s) command (world s) in
    (r, mkState w (gitCwd s) (trace s ++ [Git (gitCwd s) command])%list).

Definition logger (level : Level) (message : Message) : M W unit :=
  fun s => (Returned tt, record (Log level message) s).

(** Lines 48-57 and again lines 88-97, which differ in the name of the
    path variable only: create or repoint the remote [origin]. *)
Definition configureOrigin (folderPath repoUrl : string) : M W unit :=
  remotes <- (git_cwd folderPath ;; git_run (Raw ["remote"; "show"])) ;;
  if JS.includes remotes "origin" then
    logger info RemoteOriginExists ;;
    git_cwd folderPath ;;
    git_run (Raw ["remote"; "set-url"; "origin"; repoUrl]) ;;
    ret tt
  else
    logger info AddingRemoteOrigin ;;
    git_cwd folderPath ;;
    git_run (Raw ["remote"; "add"; "origin"; repoUrl]) ;;
    ret tt.

Definition branchFolder (parentFolderPath branchName : string) : string :=
  path_join parentFolderPath (sanitizeFolderName branchName).

(** The [try] block of [cloneBranchToFolder], lines 30-66. *)
Definition cloneBranchToFolder_try
           (repoUrl branchName parentFolderPath : string) : M W unit :=
  let sanitizedBranchName := sanitizeFolderName branchName in
  let branchFolderPath := path_join parentFolderPath sanitizedBranchName in
  found <- fs_existsSync branchFolderPath ;;
  if (found : bool) then
    logger info (SubfolderExists branchFolderPath)
  else
    fs_mkdirSync branchFolderPath ;;
    logger info (CreatedSubfolder branchFolderPath) ;;
    logger info (InitializingSubfolder branchFolderPath) ;;
    git_cwd branchFolderPath ;; git_run Init ;;
    configureOrigin branchFolderPath repoUrl ;;
    git_cwd branchFolderPath ;; git_run Fetch ;;
    logger info (CheckingOut branchName branchFolderPath) ;;
    git_cwd branchFolderPath ;; git_run (Checkout [branchName]) ;;
    logger info (CheckedOut branchName branchFolderPath).

(** [cloneBranchToFolder], lines 28-70. *)
Definition cloneBranchToFolder
           (repoUrl branchName parentFolderPath : string) : M W unit :=
  tryCatch (cloneBranchToFolder_try repoUrl branchName parentFolderPath)
           (fun err => logger error (ErrorCloningBranch branchName err)).

(** Lines 77-101 of [cloneRepository]: the repository folder, its
    [origin], and the listing of the remote's refs. *)
Definition listRemoteRefs (repoUrl repoFolderPath : string) : M W string :=
  found <- fs_existsSync repoFolderPath ;;
  (if negb found then
     logger info (FolderMissing repoFolderPath) ;;
     fs_mkdirSync repoFolderPath
   else ret tt) ;;
  logger info (InitializingFolder repoFolderPath) ;;
  git_cwd repoFolderPath ;; git_run Init ;;
  configureOrigin repoFolderPath repoUrl ;;
  logger info FetchingBranchInformation ;;
  git_cwd repoFolderPath ;;
  git_run (Raw ["ls-remote"; "--refs"; repoUrl]).

(** Lines 103-130 of [cloneRepository]: the two early returns and the
    selection of the branches to materialise. *)
Definition cloneSelected (repoUrl repoFolderPath : string)
           (cloneAllBranches : bool) (remoteBranches : string) : M W unit :=
  if negb (JS.truthy (Some remoteBranches)) then
    logger warn CouldNotFetchBranchInformation
  else
    remoteBranchNames <- liftOutcome (parseRemoteBranchNames remoteBranches) ;;
    if Nat.eqb (List.length remoteBranchNames) 0 then
      logger warn NoRemoteBranchesFound
    else
      logger info (RemoteBranches remoteBranchNames) ;;
      if cloneAllBranches then
        forOf remoteBranchNames
              (fun branchName =>
                 cloneBranchToFolder repoUrl branchName repoFolderPath)
      else
        let mainBranch :=
          if JS.arrayIncludes remoteBranchNames "main"
          then "main" else "master" in
        cloneBranchToFolder repoUrl mainBranch repoFolderPath.

(** The [try] block of [cloneRepository], lines 75-130. *)
Definition cloneRepository_try (repoUrl parentFolderPath repoName : string)
           (cloneAllBranches : bool) : M W unit :=
  let repoFolderPath := path_join parentFolderPath repoName in
  remoteBranches <- listRemoteRefs repoUrl repoFolderPath ;;
  cloneSelected repoUrl repoFolderPath cloneAllBranches remoteBranches.

(** [cloneRepository], lines 73-135. *)
Definition cloneRepository (repoUrl parentFolderPath repoName : string)
           (cloneAllBranches : bool) : M W unit :=
  tryCatch
    (cloneRepository_try repoUrl parentFolderPath repoName cloneAllBranches)
    (fun err => logger error (ErrorCloningRepository err)).

End Program.

(** ** Observations on a trace *)

Fixpoint collect {A B : Type} (f : A -> option B) (xs : list A) : list B :=
  match xs with
  | [] => []
  | x :: rest =>
      match f x with
      | Some y => y :: collect f rest
      | None => collect f rest
      end
  end.

(** The terminal states of one materialisation, as the log shows them:
    line 35 (skipped), line 66 (done), line 68 (failed). *)
Inductive Terminal : Type :=
| Skipped (branchFolderPath : string)
| Done (branchName branchFolderPath : string)
| Failed (branchName : string) (err : Error).

Definition terminalOf (e : Event) : option Terminal :=
  match e with
  | Log info (SubfolderExists p) => Some (Skipped p)
  | Log info (CheckedOut b p) => Some (Done b p)
  | Log error (ErrorCloningBranch b err) => Some (Failed b err)
  | _ => None
  end.

Definition terminals (t : list Event) : list Terminal := collect terminalOf t.

(** The existence checks: each materialisation starts with one, on its
    target path (line 34). *)
Definition probeOf (e : Event) : option string :=
  match e with
  | FsExists p => Some p
  | _ => None
  end.

Definition probes (t : list Event) : list string := collect probeOf t.

(** The calls that reach the git backend. *)
Definition gitCallOf (e : Event) : option (string * GitCommand) :=
  match e with
  | Git cwd command => Some (cwd, command)
  | _ => None
  end.

Definition gitCalls (t : list Event) : list (string * GitCommand) :=
  collect gitCallOf t.

Definition warningOf (e : Event) : option Message :=
  match e with
  | Log warn m => Some m
  | _ => None
  end.

Definition warnings (t : list Event) : list Message := collect warningOf t.

(** Events that are none of the above: neither an existence check, nor a
    terminal state, nor a warning. *)
Definition quiet (e : Event) : Prop :=
  probeOf e = None /\ terminalOf e = None /\ warningOf e = None.

(** [t] is a terminal state of the materialisation of [branchName] under
    [parentFolderPath]. *)
Definition terminalFor {W : Type} {host : Host W}
           (parentFolderPath branchName : string) (t : Terminal) : Prop :=
  t = Skipped (branchFolder parentFolderPath branchName) \/
  t = Done branchName (branchFolder parentFolderPath branchName) \/
  exists err, t = Failed branchName err.

(** What [cloneRepository] logs once the listing is parsed: one of the two
    warnings before an early return (lines 104 and 115), or the list of
    the branches (line 119). *)
Definition announcement (remoteBranches : string)
           (remoteBranchNames : list string) : Event :=
  match remoteBranches, remoteBranchNames with
  | EmptyString, _ => Log warn CouldNotFetchBranchInformation
  | String _ _, [] => Log warn NoRemoteBranchesFound
  | String _ _, _ :: _ => Log info (RemoteBranches remoteBranchNames)
  end.

(** [needle] occurs in [text]. *)
Definition Occurs (needle text : string) : Prop :=
  exists before after, text = before ++ needle ++ after.

(** ** Shapes of trace segments *)

Section Shapes.

Context {W : Type} {host : Host W}.

(** [c] leaves nothing but quiet events, whether it returns or throws. *)
Definition Quiet {A : Type} (c : M W A) : Prop :=
  forall s, exists evs,
    trace (snd (c s)) = (trace s ++ evs)%list /\ Forall quiet evs.

(** [c] leaves quiet events and then either throws or logs [final] as its
    last act and returns. *)
Definition EndsWith (final : Event) (c : M W unit) : Prop :=
  forall s, exists evs s',
    Forall quiet evs /\
    ((exists e, c s = (Threw e, s') /\ trace s' = (trace s ++ evs)%list) \/
     (c s = (Returned tt, s') /\
      trace s' = (trace s ++ evs ++ [final])%list)).

(** What one materialisation leaves in the trace: the existence check on
    the target path, then quiet events, then one terminal state. *)
Definition attemptOf (parentFolderPath branchName : string)
           (evs : list Event) : Prop :=
  exists middle final t,
    evs = (FsExists (branchFolder parentFolderPath branchName)
             :: middle ++ [final])%list /\
    Forall quiet middle /\
    terminalOf final = Some t /\
    probeOf final = None /\
    warningOf final = None /\
    terminalFor parentFolderPath branchName t.

End Shapes.

(** ** A reference host

    A small executable world on which the program can be run: a set of
    directories, the remotes of the repositories initialised in them, and
    one remote repository. Its git follows the command-line tool:
    [remote add] refuses a name that is taken, [remote set-url] refuses a
    name that is not, [remote show] prints one name per line. *)

Module Sim.

Record World : Type := mkWorld {
  dirs : list string;
  repos : list (string * list (string * string));
  listing : string;
  heads : list string
}.

Definition mem (x : string) (xs : list string) : bool :=
  existsb (String.eqb x) xs.

Fixpoint lookup {A : Type} (k : string) (kvs : list (string * A))
  : option A :=
  match kvs with
  | [] => None
  | (k', v) :: rest => if String.eqb k k' then Some v else lookup k rest
  end.

Fixpoint update {A : Type} (k : string) (v : A) (kvs : list (string * A))
  : list (string * A) :=
  match kvs with
  | [] => [(k, v)]
  | (k', v') :: rest =>
      if String.eqb k k' then (k, v) :: rest else (k', v') :: update k v rest
  end.

Definition setRemotes (cwd : string) (rs : list (string * string))
           (w : World) : World :=
  mkWorld (dirs w) (update cwd rs (repos w)) (listing w) (heads w).

(** What [git remote show] prints: the names, one per line. *)
Fixpoint showRemotes (rs : list (string * string)) : string :=
  match rs with
  | [] => ""
  | (name, _) :: rest => name ++ String JS.NL (showRemotes rest)
  end.

Definition exec (cwd : string) (command : GitCommand) (w : World)
  : Outcome string * World :=
  if negb (mem cwd (dirs w)) then (Threw "cwd: no such directory", w) else
  match command, lookup cwd (repos w) with
  | Init, None => (Returned "", setRemotes cwd [] w)
  | Init, Some _ => (Returned "", w)
  | _, None => (Threw "fatal: not a git repository", w)
  | Raw ["remote"; "show"], Some rs => (Returned (showRemotes rs), w)
  | Raw ["remote"; "add"; name; url], Some rs =>
      match lookup name rs with
      | Some _ => (Threw "error: remote already exists.", w)
      | None => (Returned "", setRemotes cwd (rs ++ [(name, url)])%list w)
      end
  | Raw ["remote"; "set-url"; name; url], Some rs =>
      match lookup name rs with
      | Some _ => (Returned "", setRemotes cwd (update name url rs) w)
      | None => (Threw "error: No such remote", w)
      end
  | Raw ["ls-remote"; "--refs"; url], Some _ => (Returned (listing w), w)
  | Fetch, Some rs =>
      match lookup "origin" rs with
      | Some _ => (Returned "", w)
      | None => (Threw "fatal: 'origin' does not appear to be a git repository", w)
      end
  | Checkout [branchName], Some _ =>
      if mem branchName (heads w) then (Returned "", w)
      else (Threw "error: pathspec did not match", w)
  | _, Some _ => (Threw "git: unsupported command", w)
  end.

(** A join for paths without [.], [..] or doubled separators. *)
Definition join (a b : string) : string := a ++ "/" ++ b.

Definition mkdir (path : string) (w : World) : Outcome unit * World :=
  (Returned tt,
   mkWorld (if mem path (dirs w) then dirs w else (dirs w ++ [path])%list)
           (repos w) (listing w) (heads w)).

#[global] Instance host : Host World := {
  path_join := join;
  existsSync := fun path w => mem path (dirs w);
  mkdirSync := mkdir;
  git_exec := exec
}.

Definition start (w : World) : State World := mkState w "." [].

Definition line (ref : string) : string :=
  "0a1b2c" ++ String JS.TAB ref ++ String JS.NL "".

Definition url : string := "https://github.com/o/r.git".

(** Worlds to run the program in. The mirror is always asked for under
    the parent folder [root] with the repository name [r]. *)

(** An empty disk; the remote has the one branch develop. *)
Definition onlyDevelop : World :=
  mkWorld [] [] (line "refs/heads/develop") ["develop"].

(** An empty disk; the remote has main and develop. *)
Definition mainAndDevelop : World :=
  mkWorld [] []
          (line "refs/heads/develop" ++ line "refs/heads/main")
          ["develop"; "main"].

(** An empty disk; the remote has two branches whose names differ in a
    character that sanitising replaces. *)
Definition colliding : World :=
  mkWorld [] []
          (line "refs/heads/feat/x" ++ line "refs/heads/feat_x")
          ["feat/x"; "feat_x"].

(** An empty disk; the remote lists three branches, and the second is gone
    by the time it is checked out. *)
Definition secondFails : World :=
  mkWorld [] []
          (line "refs/heads/main" ++ line "refs/heads/dev"
             ++ line "refs/heads/docs")
          ["main"; "docs"].

(** An empty disk; the remote lists nothing. *)
Definition emptyRemote : World := mkWorld [] [] "" [].

(** The folder of branch main is on the disk already. *)
Definition alreadyCloned : World :=
  mkWorld ["root/r"; "root/r/main"] [("root/r", [("origin", url)])]
          (line "refs/heads/main") ["main"].

(** The repository folder holds a repository whose only remote is named
    my-origin. *)
Definition withMyOrigin : World :=
  mkWorld ["root/r"]
          [("root/r", [("my-origin", "https://github.com/me/fork.git")])]
          (line "refs/heads/main") ["main"].

Definition remotesOf (folderPath : string) (w : World)
  : option (list (string * string)) :=
  lookup folderPath (repos w).

(** The remotes a repository should have once [origin] has been created
    or repointed to [repoUrl]. *)
Definition withOrigin (repoUrl : string) (rs : list (string * string))
  : list (string * string) :=
  match lookup "origin" rs with
  | Some _ => update "origin" repoUrl rs
  | None => (rs ++ [("origin", repoUrl)])%list
  end.

(** The remotes named [name]. *)
Definition named (name : string) (rs : list (string * string))
  : list (string * string) :=
  filter (fun r => String.eqb (fst r) name) rs.

End Sim.

(** The example listing of the specification. *)
Definition exampleListing : string :=
  "<hash1>" ++ String JS.TAB "refs/heads/main" ++ String JS.NL
  "<hash2>" ++ String JS.TAB "refs/tags/v1" ++ String JS.NL
  "<hash3>" ++ String JS.TAB "refs/heads/dev" ++ String JS.NL "".

(** ** The URL check of the prompt (index.js, lines 146-151) *)

(** The regular expressions of line 147 use literal characters, the dot
    and the dot-star only, between [^] and [$] and without flags. *)
Module Regex.

Inductive Atom : Type :=
| Lit (c : ascii)
| Dot
| DotStar.

(** The dot matches every character but the line terminators. *)
Definition lineTerminator (c : ascii) : bool :=
  Ascii.eqb c "010"%char || Ascii.eqb c "013"%char.

Fixpoint lits (s : string) : list Atom :=
  match s with
  | EmptyString => []
  | String c rest => Lit c :: lits rest
  end.

(** Dot-star: try the rest of the pattern here, or after one more
    character that is not a line terminator. *)
Fixpoint skipAny (k : string -> bool) (s : string) : bool :=
  k s ||
  match s with
  | EmptyString => false
  | String c rest => negb (lineTerminator c) && skipAny k rest
  end.

(** Whether [value.match(/^re$/)] finds a match. *)
Fixpoint test (re : list Atom) (s : string) : bool :=
  match re with
  | [] =>
      match s with
      | EmptyString => true
      | String _ _ => false
      end
  | Lit c :: re' =>
      match s with
      | EmptyString => false
      | String d rest => Ascii.eqb c d && test re' rest
      end
  | Dot :: re' =>
      match s with
      | EmptyString => false
      | String d rest => negb (lineTerminator d) && test re' rest
      end
  | DotStar :: re' => skipAny (test re') s
  end.

End Regex.

(** The pattern of the SSH form: git@github.com: followed by anything, a
    slash, anything and .git, where the dot of github.com is not
    escaped. *)
Definition sshPattern : list Regex.Atom :=
  (Regex.lits "git@github" ++ [Regex.Dot] ++ Regex.lits "com:"
     ++ [Regex.DotStar] ++ Regex.lits "/" ++ [Regex.DotStar]
     ++ Regex.lits ".git")%list.

(** The pattern of the HTTPS form. *)
Definition httpsPattern : list Regex.Atom :=
  (Regex.lits "https://github" ++ [Regex.Dot] ++ Regex.lits "com/"
     ++ [Regex.DotStar] ++ Regex.lits "/" ++ [Regex.DotStar]
     ++ Regex.lits ".git")%list.

(** The function returns [true] or the message to show. *)
Inductive Validation : Type :=
| Valid
| Invalid (message : string).

Definition validate (value : string) : Validation :=
  if Regex.test sshPattern value || Regex.test httpsPattern value
  then Valid
  else Invalid "Please enter a valid GitHub URL (SSH or HTTPS).".

(** ** Vocabulary of the further properties *)

(** [s] has no character [c]. *)
Definition lacks (c : ascii) (s : string) : Prop :=
  ~ In c (list_ascii_of_string s).

(** [s] has no line terminator. *)
Definition oneLine (s : string) : Prop :=
  forall c, In c (list_ascii_of_string s) -> Regex.lineTerminator c = false.

(** A character that sanitising turns into an underscore, or leaves as
    one. *)
Definition blank (c : ascii) : Prop := illegal c = true \/ c = "_"%char.

(** Two names that differ only where both have a blank character. *)
Definition alike (a b : string) : Prop :=
  Forall2 (fun x y => x = y \/ (blank x /\ blank y))
          (list_ascii_of_string a) (list_ascii_of_string b).

(** The listing of head refs: one line per pair of a hash and a branch
    name. *)
Fixpoint headListing (refs : list (string * string)) : string :=
  match refs with
  | [] => ""
  | (hash, name) :: rest =>
      hash ++ String JS.TAB (headsPrefix ++ name)
           ++ String JS.NL (headListing rest)
  end.

(** The calls that change the outside: making a directory and running a
    git command. *)
Definition isCall (e : Event) : bool :=
  match e with
  | FsMkdir _ | Git _ _ => true
  | _ => false
  end.

Definition calls (t : list Event) : list Event := filter isCall t.

Definition Prefix {A : Type} (l full : list A) : Prop :=
  exists rest, full = (l ++ rest)%list.

(** The calls of lines 48-57 (and 88-97) when none of them throws. *)
Definition originSteps (folderPath repoUrl : string) (repoint : bool)
  : list Event :=
  [Git folderPath (Raw ["remote"; "show"]);
   Git folderPath
       (Raw ["remote"; if repoint then "set-url" else "add";
             "origin"; repoUrl])].

(** The calls of lines 40-64 when none of them throws. *)
Definition materialiseSteps (repoUrl branchName target : string)
           (repoint : bool) : list Event :=
  (FsMkdir target :: Git target Init :: originSteps target repoUrl repoint
     ++ [Git target Fetch; Git target (Checkout [branchName])])%list.

(** The calls of lines 78-101 when none of them throws; [found] is the
    answer of the existence check of line 78. *)
Definition setupSteps (repoUrl repoFolderPath : string)
           (found repoint : bool) : list Event :=
  ((if found then [] else [FsMkdir repoFolderPath])
     ++ Git repoFolderPath Init :: originSteps repoFolderPath repoUrl repoint
     ++ [Git repoFolderPath (Raw ["ls-remote"; "--refs"; repoUrl])])%list.

(** The branches [cloneRepository] goes on to materialise (lines
    114-130). *)
Definition selected (cloneAllBranches : bool) (remoteBranchNames : list string)
  : list string :=
  match remoteBranchNames with
  | [] => []
  | _ :: _ =>
      if cloneAllBranches then remoteBranchNames
      else [if JS.arrayIncludes remoteBranchNames "main"
            then "main" else "master"]
  end.

(** What a skipped materialisation leaves in the trace (lines 34-36). *)
Definition skipEvents (target : string) : list Event :=
  [FsExists target; Log info (SubfolderExists target)].

Section Scripts.

Context {W : Type} {host : Host W}.

(** The calls of [c] go along a script that [P] allows: they are a prefix
    of it, and all of it when [c] returns. *)
Definition Follows {A : Type} (c : M W A) (P : list Event -> Prop) : Prop :=
  forall s, exists evs script,
    trace (snd (c s)) = (trace s ++ evs)%list /\
    P script /\
    Prefix (calls evs) script /\
    (forall a, fst (c s) = Returned a -> calls evs = script).

(** [c] does not make the folder [path] disappear. *)
Definition Keeps {A : Type} (path : string) (c : M W A) : Prop :=
  forall s,
    existsSync path (world s) = true ->
    existsSync path (world (snd (c s))) = true.

(** Folders stay: a directory that was made exists, and no git command
    removes a folder. *)
Definition FoldersPersist : Prop :=
  (forall path w w',
      mkdirSync path w = (Returned tt, w') -> existsSync path w' = true) /\
  (forall path cwd command w,
      existsSync path w = true ->
      existsSync path (snd (git_exec cwd command w)) = true).

End Scripts.

(** * Properties *)

(** ** Strings *)

Lemma prefix_append (p s : string) :
  String.prefix p s = true <-> exists rest, s = p ++ rest.
Proof.
  revert s. induction p as [|a p IH]; intros s.
  - split; [intros _; exists s; reflexivity | now destruct s].
  - destruct s as [|b s]; simpl.
    + split; [discriminate | intros [rest H]; discriminate].
    + destruct (ascii_dec a b) as [->|Hab].
      * rewrite IH. split; intros [rest H]; exists rest.
        -- now rewrite H.
        -- now injection H.
      * split; [discriminate|].
        intros [rest H]. injection H as H1 _. now elim Hab.
Qed.

Lemma append_assoc (a b c : string) : (a ++ b) ++ c = a ++ b ++ c.
Proof. induction a; simpl; congruence. Qed.

Lemma includes_Occurs (text needle : string) :
  JS.includes text needle = true <-> Occurs needle text.
Proof.
  unfold Occurs. induction text as [|c text IH].
  - cbn [JS.includes]. rewrite orb_false_r. unfold JS.startsWith.
    rewrite prefix_append.
    split.
    + intros [rest H]. exists "", rest. exact H.
    + intros [before [after H]]. destruct before; [now exists after|].
      discriminate.
  - cbn [JS.includes]. rewrite orb_true_iff, IH.
    unfold JS.startsWith. rewrite prefix_append. split.
    + intros [[rest H]|[before [after H]]].
      * exists "", rest. exact H.
      * exists (String c before), after. simpl. now rewrite H.
    + intros [before [after H]]. destruct before as [|b before].
      * left. now exists after.
      * right. exists before, after. simpl in H. now injection H.
Qed.

Lemma drop_append (p rest : string) :
  JS.drop (String.length p) (p ++ rest) = rest.
Proof. induction p; simpl; [now destruct rest | assumption]. Qed.

Lemma replace_unfold (s p r : string) :
  JS.replace s p r =
  if JS.startsWith s p then r ++ JS.drop (String.length p) s
  else match s with
       | EmptyString => EmptyString
       | String c rest => String c (JS.replace rest p r)
       end.
Proof. destruct s; reflexivity. Qed.

Lemma replace_prefix (p rest : string) :
  JS.replace (p ++ rest) p "" = rest.
Proof.
  rewrite replace_unfold.
  assert (H : JS.startsWith (p ++ rest) p = true).
  { apply prefix_append. now exists rest. }
  rewrite H. simpl. apply drop_append.
Qed.

(** ** Sanitised folder names *)

Lemma illegal_In (c : ascii) : illegal c = true <-> In c illegalChars.
Proof.
  unfold illegal. rewrite existsb_exists. split.
  - intros [x [Hx E]]. apply Ascii.eqb_eq in E. now subst.
  - intros H. exists c. split; [assumption | apply Ascii.eqb_refl].
Qed.

Lemma sanitize_cons (c : ascii) (rest : string) :
  sanitizeFolderName (String c rest) =
  String (if illegal c then "_"%char else c) (sanitizeFolderName rest).
Proof. unfold sanitizeFolderName. simpl. now destruct (illegal c). Qed.

(** C8. The sanitised name is the branch name with every illegal character
    replaced, position by position, by an underscore: it has the same
    length, none of the nine illegal characters occurs in it, and a name
    without illegal characters is returned as it is. *)
Theorem sanitizeFolderName_spec (name : string) :
  String.length (sanitizeFolderName name) = String.length name /\
  (forall i, String.get i (sanitizeFolderName name) =
             option_map (fun c => if illegal c then "_"%char else c)
                        (String.get i name)) /\
  (forall c, In c (list_ascii_of_string (sanitizeFolderName name)) ->
             ~ In c illegalChars) /\
  ((forall c, In c (list_ascii_of_string name) -> ~ In c illegalChars) ->
   sanitizeFolderName name = name).
Proof.
  induction name as [|c name [IHlen [IHget [IHnone IHsame]]]].
  - repeat split; try reflexivity; intros; simpl in *; tauto.
  - rewrite sanitize_cons. repeat split.
    + simpl. now rewrite IHlen.
    + intros [|i]; simpl; [reflexivity | apply IHget].
    + intros x [Hx|Hx].
      * subst x. destruct (illegal c) eqn:E.
        -- intros H. apply illegal_In in H. discriminate.
        -- intros H. apply illegal_In in H. congruence.
      * now apply IHnone.
    + intros H. rewrite IHsame.
      * destruct (illegal c) eqn:E; [|reflexivity].
        apply illegal_In in E. elim (H c); [now left | assumption].
      * intros x Hx. apply H. now right.
Qed.

Lemma sanitizeFolderName_witness :
  sanitizeFolderName "release-1.2" = "release-1.2" /\
  ~ In "_"%char illegalChars.
Proof.
  pose proof (sanitizeFolderName_spec "release-1.2") as [_ [_ [_ Hsame]]].
  pose proof (sanitizeFolderName_spec "a/b") as [_ [_ [Hnone _]]].
  split.
  - apply Hsame. intros c Hc.
    simpl in Hc. intros Hi. apply illegal_In in Hi.
    repeat (destruct Hc as [<-|Hc]; [discriminate Hi|]). exact Hc.
  - apply Hnone. simpl. tauto.
Defined.

(** ** The ref listing *)

Lemma stripPrefix_prefix (p s : string) :
  BranchSetSpec.stripPrefix p s =
  if String.prefix p s then Some (JS.drop (String.length p) s) else None.
Proof.
  revert s. induction p as [|a p IH]; intros [|b s]; simpl; try reflexivity.
  destruct (Ascii.eqb_spec a b) as [->|Hab]; destruct (ascii_dec _ _);
    try contradiction; auto; congruence.
Qed.

Lemma secondField_nth (line : string) :
  BranchSetSpec.secondField line = nth_error (JS.split JS.TAB line) 1.
Proof.
  unfold BranchSetSpec.secondField.
  destruct (JS.split JS.TAB line) as [|x [|y l]]; reflexivity.
Qed.

Lemma parse_lines (ls : list string) :
  JS.mapThrowing stripHeads
    (filter (fun branch =>
               JS.truthy branch &&
               match branch with
               | Some b => JS.startsWith b headsPrefix
               | None => false
               end)
            (map (fun line => nth_error (JS.split JS.TAB line) 1) ls)) =
  Returned (BranchSetSpec.keep (map BranchSetSpec.headOfLine ls)).
Proof.
  induction ls as [|line ls IH]; [reflexivity|].
  cbn [map filter BranchSetSpec.keep].
  unfold BranchSetSpec.headOfLine at 1. rewrite secondField_nth.
  destruct (nth_error (JS.split JS.TAB line) 1) as [b|]; [|exact IH].
  rewrite stripPrefix_prefix.
  change (String.prefix headsPrefix b) with (JS.startsWith b headsPrefix).
  destruct b as [|c b].
  - cbn [JS.truthy andb]. exact IH.
  - cbn [JS.truthy andb].
    destruct (JS.startsWith (String c b) headsPrefix) eqn:E.
    + cbn [JS.mapThrowing stripHeads]. rewrite IH.
      rewrite replace_unfold, E. reflexivity.
    + exact IH.
Qed.

Lemma parse_returns (text : string) :
  parseRemoteBranchNames text = Returned (BranchSetSpec.branchSet text).
Proof.
  unfold parseRemoteBranchNames, BranchSetSpec.branchSet. apply parse_lines.
Qed.

(** C7. For every listing text the branch names the program derives are
    those of the specification's recipe (lines, second tab-separated field,
    fields with the prefix refs/heads/, prefix stripped, order kept), the
    derivation never throws, and the example text of the specification
    parses to main, dev. *)
Theorem parseRemoteBranchNames_spec :
  (forall text,
      parseRemoteBranchNames text =
      Returned (BranchSetSpec.branchSet text)) /\
  parseRemoteBranchNames exampleListing = Returned ["main"; "dev"].
Proof.
  split; [exact parse_returns | reflexivity].
Qed.

(** ** Traces *)

Lemma collect_app {A B : Type} (f : A -> option B) (xs ys : list A) :
  collect f (xs ++ ys)%list = (collect f xs ++ collect f ys)%list.
Proof.
  induction xs as [|x xs IH]; simpl; [reflexivity|].
  destruct (f x); simpl; now rewrite IH.
Qed.

Lemma arrayIncludes_In (xs : list string) (x : string) :
  JS.arrayIncludes xs x = true <-> In x xs.
Proof.
  unfold JS.arrayIncludes. rewrite existsb_exists. split.
  - intros [y [Hy E]]. apply String.eqb_eq in E. now subst.
  - intros H. exists x. split; [assumption | apply String.eqb_refl].
Qed.

Lemma collect_quiet {B : Type} (f : Event -> option B) (evs : list Event) :
  Forall (fun e => f e = None) evs -> collect f evs = [].
Proof.
  induction 1 as [|e evs He _ IH]; simpl; [reflexivity|]. now rewrite He.
Qed.

Lemma quiet_observations (evs : list Event) :
  Forall quiet evs ->
  probes evs = [] /\ terminals evs = [] /\ warnings evs = [].
Proof.
  intros H. repeat split; apply collect_quiet;
    (eapply Forall_impl; [|exact H]); intros e He; apply He.
Qed.

Section Materialise.

Context {W : Type} {host : Host W}.

Lemma Quiet_ret {A : Type} (a : A) : Quiet (ret a : M W A).
Proof. intros s. exists []. simpl. now rewrite app_nil_r. Qed.

Lemma Quiet_bind {A B : Type} (c : M W A) (k : A -> M W B) :
  Quiet c -> (forall a, Quiet (k a)) -> Quiet (bind c k).
Proof.
  intros Hc Hk s. unfold bind.
  destruct (Hc s) as [evs1 [E1 Q1]].
  destruct (c s) as [[a|e] s1]; simpl in E1.
  - destruct (Hk a s1) as [evs2 [E2 Q2]].
    exists (evs1 ++ evs2)%list. rewrite E2, E1, app_assoc.
    split; [reflexivity | now apply Forall_app].
  - exists evs1. now split.
Qed.

Lemma Quiet_git_cwd (path : string) : Quiet (W:=W) (git_cwd path).
Proof. intros s. exists []. simpl. now rewrite app_nil_r. Qed.

Lemma Quiet_git_run (command : GitCommand) : Quiet (git_run command).
Proof.
  intros s. unfold git_run. destruct (git_exec _ _ _) as [r w].
  eexists. split; [reflexivity|]. repeat constructor.
Qed.

Lemma Quiet_mkdir (path : string) : Quiet (fs_mkdirSync path).
Proof.
  intros s. unfold fs_mkdirSync. destruct (mkdirSync _ _) as [r w].
  eexists. split; [reflexivity|]. repeat constructor.
Qed.

Lemma Quiet_logger (level : Level) (m : Message) :
  quiet (Log level m) -> Quiet (W:=W) (logger level m).
Proof.
  intros H s. eexists. split; [reflexivity|]. now constructor.
Qed.

Lemma Quiet_configureOrigin (folderPath repoUrl : string) :
  Quiet (configureOrigin folderPath repoUrl).
Proof.
  unfold configureOrigin.
  apply Quiet_bind; [auto using Quiet_bind, Quiet_git_cwd, Quiet_git_run|].
  intros remotes. destruct (JS.includes remotes "origin");
    repeat (apply Quiet_bind; [|intros ?]);
    auto using Quiet_git_cwd, Quiet_git_run, Quiet_ret;
    apply Quiet_logger; repeat split.
Qed.

Lemma EndsWith_bind {A : Type} (final : Event) (c : M W A)
      (k : A -> M W unit) :
  Quiet c -> (forall a, EndsWith final (k a)) -> EndsWith final (bind c k).
Proof.
  intros Hc Hk s. unfold bind.
  destruct (Hc s) as [evs1 [E1 Q1]].
  destruct (c s) as [[a|e] s1]; simpl in E1.
  - destruct (Hk a s1) as [evs2 [s2 [Q2 H2]]].
    exists (evs1 ++ evs2)%list, s2. split; [now apply Forall_app|].
    destruct H2 as [[e [H2 E2]]|[H2 E2]]; [left; exists e | right];
      (split; [exact H2|]); rewrite E2, E1; now rewrite <- !app_assoc.
  - exists evs1, s1. split; [assumption|]. left. exists e. now split.
Qed.

Lemma EndsWith_logger (level : Level) (m : Message) :
  EndsWith (W:=W) (Log level m) (logger level m).
Proof.
  intros s. exists [], (record (Log level m) s). split; [constructor|].
  right. split; reflexivity.
Qed.

Lemma cloneBranchToFolder_attempt (repoUrl branchName parent : string)
      (s : State W) :
  exists evs s',
    cloneBranchToFolder repoUrl branchName parent s = (Returned tt, s') /\
    trace s' = (trace s ++ evs)%list /\
    attemptOf parent branchName evs.
Proof.
  set (target := branchFolder parent branchName).
  assert (Hrest : EndsWith (Log info (CheckedOut branchName target))
    (fs_mkdirSync target ;;
     logger info (CreatedSubfolder target) ;;
     logger info (InitializingSubfolder target) ;;
     git_cwd target ;; git_run Init ;;
     configureOrigin target repoUrl ;;
     git_cwd target ;; git_run Fetch ;;
     logger info (CheckingOut branchName target) ;;
     git_cwd target ;; git_run (Checkout [branchName]) ;;
     logger info (CheckedOut branchName target))).
  { repeat (apply EndsWith_bind; [|intros ?]);
      auto using Quiet_git_cwd, Quiet_git_run, Quiet_mkdir,
                 Quiet_configureOrigin, EndsWith_logger;
      apply Quiet_logger; repeat split. }
  unfold cloneBranchToFolder, tryCatch, cloneBranchToFolder_try.
  fold (branchFolder parent branchName). fold target.
  unfold bind at 1. unfold fs_existsSync at 1.
  destruct (existsSync target (world s)) eqn:Hex.
  - eexists. eexists. split; [reflexivity|]. split.
    + simpl. rewrite <- app_assoc. reflexivity.
    + exists [], (Log info (SubfolderExists target)), (Skipped target).
      repeat split; try constructor. reflexivity.
  - destruct (Hrest (record (FsExists target) s))
      as [evs [s' [Q [[e [Hrun E]]|[Hrun E]]]]]; rewrite Hrun.
    + eexists. eexists. split; [reflexivity|]. split.
      * simpl. rewrite E. simpl. rewrite <- !app_assoc. reflexivity.
      * exists evs, (Log error (ErrorCloningBranch branchName e)),
          (Failed branchName e).
        repeat split; try assumption. right. right. now exists e.
    + eexists. eexists. split; [reflexivity|]. split.
      * rewrite E. simpl. rewrite <- !app_assoc. reflexivity.
      * exists evs, (Log info (CheckedOut branchName target)),
          (Done branchName target).
        repeat split; try assumption. right. left. reflexivity.
Qed.

Lemma attemptOf_observed (parent branchName : string) (evs : list Event) :
  attemptOf parent branchName evs ->
  probes evs = [branchFolder parent branchName] /\
  warnings evs = [] /\
  exists t, terminals evs = [t] /\ terminalFor parent branchName t.
Proof.
  intros [middle [final [t [-> [Q [Ht [Hp [Hw Hfor]]]]]]]].
  destruct (quiet_observations middle Q) as [Qp [Qt Qw]].
  unfold probes, warnings, terminals in *. cbn [collect probeOf warningOf terminalOf].
  rewrite !collect_app, Qp, Qt, Qw. cbn [collect app].
  rewrite Ht, Hp, Hw. repeat split. now exists t.
Qed.

Lemma attempts_observed (parent : string) (bs : list string)
      (segs : list (list Event)) :
  Forall2 (attemptOf parent) bs segs ->
  probes (concat segs) = map (branchFolder parent) bs /\
  warnings (concat segs) = [] /\
  Forall2 (terminalFor parent) bs (terminals (concat segs)).
Proof.
  induction 1 as [|b seg bs segs Hb _ [IHp [IHw IHt]]]; cbn [concat map].
  - repeat split. constructor.
  - destruct (attemptOf_observed _ _ _ Hb) as [Hp [Hw [t [Ht Hfor]]]].
    unfold probes, warnings, terminals in *. rewrite !collect_app.
    rewrite Hp, Hw, Ht, IHp, IHw. repeat split. now constructor.
Qed.

(** The loop of lines 123-125 runs to its end: the trace grows by one
    attempt per branch, in the order of the list. *)
Lemma forOf_attempts (repoUrl parent : string) (bs : list string)
      (s : State W) :
  exists segs s',
    forOf bs (fun b => cloneBranchToFolder repoUrl b parent) s
    = (Returned tt, s') /\
    trace s' = (trace s ++ concat segs)%list /\
    Forall2 (attemptOf parent) bs segs.
Proof.
  revert s. induction bs as [|b bs IH]; intros s.
  - exists [], s. cbn. rewrite app_nil_r. repeat split. constructor.
  - destruct (cloneBranchToFolder_attempt repoUrl b parent s)
      as [evs [s1 [Hrun [E1 Hb]]]].
    destruct (IH s1) as [segs [s2 [Hloop [E2 Hbs]]]].
    exists (evs :: segs), s2. cbn [forOf]. unfold bind. rewrite Hrun.
    split; [exact Hloop|]. split; [|now constructor].
    rewrite E2, E1. cbn [concat]. now rewrite app_assoc.
Qed.

(** Once the listing has returned, what remains of [cloneRepository] is
    the selection; an exception of the selection would be caught. *)
Lemma cloneRepository_after_listing (repoUrl parent repoName text : string)
      (cloneAllBranches : bool) (s s1 : State W) :
  listRemoteRefs repoUrl (path_join parent repoName) s = (Returned text, s1) ->
  cloneRepository repoUrl parent repoName cloneAllBranches s =
  match cloneSelected repoUrl (path_join parent repoName)
                      cloneAllBranches text s1 with
  | (Returned a, s2) => (Returned a, s2)
  | (Threw e, s2) => logger error (ErrorCloningRepository e) s2
  end.
Proof.
  intros H. unfold cloneRepository, tryCatch, cloneRepository_try.
  unfold bind at 1. now rewrite H.
Qed.

(** The selection, lines 103-130, once the listing is parsed. *)
Lemma cloneSelected_run (repoUrl repoFolderPath text : string)
      (cloneAllBranches : bool) (bs : list string) (s : State W) :
  parseRemoteBranchNames text = Returned bs ->
  cloneSelected repoUrl repoFolderPath cloneAllBranches text s =
  let s0 := record (announcement text bs) s in
  match bs with
  | [] => (Returned tt, s0)
  | _ :: _ =>
      if cloneAllBranches then
        forOf bs (fun b => cloneBranchToFolder repoUrl b repoFolderPath) s0
      else
        cloneBranchToFolder repoUrl
          (if JS.arrayIncludes bs "main" then "main" else "master")
          repoFolderPath s0
  end.
Proof.
  intros Hparse. unfold cloneSelected. destruct text as [|c text].
  - cbv in Hparse. injection Hparse as <-. reflexivity.
  - cbn [JS.truthy negb]. unfold bind at 1. unfold liftOutcome.
    rewrite Hparse. destruct bs as [|b bs]; [reflexivity|].
    cbn [List.length Nat.eqb]. unfold bind at 1. unfold logger at 1.
    now destruct cloneAllBranches.
Qed.

End Materialise.

(** ** The two operations *)

Section Mirror.

Context {W : Type} {host : Host W}.

Lemma cloneBranchToFolder_returns (repoUrl branchName parent : string)
      (s : State W) :
  fst (cloneBranchToFolder repoUrl branchName parent s) = Returned tt.
Proof.
  destruct (cloneBranchToFolder_attempt repoUrl branchName parent s)
    as [evs [s' [H _]]].
  now rewrite H.
Qed.

Lemma cloneSelected_returns (repoUrl repoFolderPath text : string)
      (cloneAllBranches : bool) (s : State W) :
  fst (cloneSelected repoUrl repoFolderPath cloneAllBranches text s)
  = Returned tt.
Proof.
  rewrite (cloneSelected_run _ _ _ _ _ _ (parse_returns text)). cbv zeta.
  destruct (BranchSetSpec.branchSet text) as [|b bs]; [reflexivity|].
  destruct cloneAllBranches.
  - destruct (forOf_attempts repoUrl repoFolderPath (b :: bs)
                (record (announcement text (b :: bs)) s))
      as [segs [s' [H _]]].
    now rewrite H.
  - apply cloneBranchToFolder_returns.
Qed.

(** C2. When the target folder of a branch exists, [cloneBranchToFolder]
    returns at once: the world (the disk with every folder on it, the
    repositories) is the one it started in, the only events are the
    existence check and the log line of the skip, and so no call reaches
    the git backend and no directory is made. *)
Theorem existing_folder_is_skipped (repoUrl branchName parent : string)
        (s : State W) :
  existsSync (branchFolder parent branchName) (world s) = true ->
  let target := branchFolder parent branchName in
  let s' := snd (cloneBranchToFolder repoUrl branchName parent s) in
  cloneBranchToFolder repoUrl branchName parent s =
  (Returned tt,
   mkState (world s) (gitCwd s)
           (trace s ++ [FsExists target; Log info (SubfolderExists target)])) /\
  world s' = world s /\
  gitCalls (trace s') = gitCalls (trace s) /\
  skipn (List.length (trace s)) (trace s')
  = [FsExists target; Log info (SubfolderExists target)].
Proof.
  intros Hex target s'.
  assert (E : cloneBranchToFolder repoUrl branchName parent s =
              (Returned tt,
               mkState (world s) (gitCwd s)
                 (trace s ++
                  [FsExists target; Log info (SubfolderExists target)]))).
  { unfold cloneBranchToFolder, tryCatch, cloneBranchToFolder_try.
    fold (branchFolder parent branchName). fold target.
    change (existsSync target (world s) = true) in Hex.
    unfold bind, fs_existsSync. rewrite Hex. unfold logger, record.
    cbn. now rewrite <- app_assoc. }
  subst s'. rewrite E. cbn [snd world trace]. repeat split.
  - unfold gitCalls. rewrite collect_app. cbn. now rewrite app_nil_r.
  - now rewrite skipn_app, skipn_all, Nat.sub_diag.
Qed.

(** C4. Neither operation ever throws, whatever the host does: an
    exception of the [try] block of [cloneBranchToFolder] or of
    [cloneRepository] ends in one [error] line of the log, and the
    operation returns. *)
Theorem errors_end_at_the_log (repoUrl branchName parent repoName : string)
        (cloneAllBranches : bool) (s : State W) :
  fst (cloneBranchToFolder repoUrl branchName parent s) = Returned tt /\
  fst (cloneRepository repoUrl parent repoName cloneAllBranches s)
  = Returned tt /\
  match cloneBranchToFolder_try repoUrl branchName parent s with
  | (Returned _, s') =>
      snd (cloneBranchToFolder repoUrl branchName parent s) = s'
  | (Threw e, s') =>
      snd (cloneBranchToFolder repoUrl branchName parent s)
      = record (Log error (ErrorCloningBranch branchName e)) s'
  end /\
  match cloneRepository_try repoUrl parent repoName cloneAllBranches s with
  | (Returned _, s') =>
      snd (cloneRepository repoUrl parent repoName cloneAllBranches s) = s'
  | (Threw e, s') =>
      snd (cloneRepository repoUrl parent repoName cloneAllBranches s)
      = record (Log error (ErrorCloningRepository e)) s'
  end.
Proof.
  split; [apply cloneBranchToFolder_returns|].
  split; [|split].
  - unfold cloneRepository, tryCatch.
    destruct (cloneRepository_try _ _ _ _ s) as [[[]|e] s']; reflexivity.
  - unfold cloneBranchToFolder, tryCatch.
    destruct (cloneBranchToFolder_try _ _ _ s) as [[a|e] s']; reflexivity.
  - unfold cloneRepository, tryCatch.
    destruct (cloneRepository_try _ _ _ _ s) as [[a|e] s']; reflexivity.
Qed.

(** C9. When the listing of the remote's refs returns the empty text, or a
    text in which no branch is found, [cloneRepository] logs one warning
    and returns: the state is the one the listing left, with that warning
    appended, so nothing is materialised and nothing is thrown. *)
Theorem empty_listing_soft_fails (repoUrl parent repoName text : string)
        (cloneAllBranches : bool) (s s1 : State W) :
  listRemoteRefs repoUrl (path_join parent repoName) s = (Returned text, s1) ->
  text = "" \/ parseRemoteBranchNames text = Returned [] ->
  let warning :=
    match text with
    | EmptyString => CouldNotFetchBranchInformation
    | String _ _ => NoRemoteBranchesFound
    end in
  cloneRepository repoUrl parent repoName cloneAllBranches s =
  (Returned tt, record (Log warn warning) s1) /\
  probes (trace (record (Log warn warning) s1)) = probes (trace s1) /\
  terminals (trace (record (Log warn warning) s1)) = terminals (trace s1) /\
  gitCalls (trace (record (Log warn warning) s1)) = gitCalls (trace s1).
Proof.
  intros Hlist Hempty warning. split.
  - rewrite (cloneRepository_after_listing _ _ _ _ _ _ _ Hlist).
    unfold cloneSelected. destruct text as [|c text]; [reflexivity|].
    destruct Hempty as [Hempty|Hparse]; [discriminate|].
    cbn [JS.truthy negb]. unfold bind, liftOutcome. rewrite Hparse.
    reflexivity.
  - unfold probes, terminals, gitCalls, record. cbn [trace].
    rewrite !collect_app. subst warning.
    destruct text; cbn; now rewrite !app_nil_r.
Qed.

(** C1, as the code has it. When not all branches are asked for,
    [cloneRepository] makes no materialisation attempt if the listing
    yields no branch, and otherwise exactly one: of main when main is among
    the branches, and of master when it is not, whether or not master is
    among them. *)
Theorem single_branch_is_main_or_master
        (repoUrl parent repoName text : string) (bs : list string)
        (s s1 : State W) :
  listRemoteRefs repoUrl (path_join parent repoName) s = (Returned text, s1) ->
  parseRemoteBranchNames text = Returned bs ->
  let repoFolderPath := path_join parent repoName in
  let mainBranch :=
    if in_dec string_dec "main" bs then "main" else "master" in
  exists evs s2,
    cloneRepository repoUrl parent repoName false s = (Returned tt, s2) /\
    trace s2 = (trace s1 ++ announcement text bs :: evs)%list /\
    (bs = [] -> evs = []) /\
    (bs <> [] ->
     attemptOf repoFolderPath mainBranch evs /\
     probes evs = [branchFolder repoFolderPath mainBranch] /\
     exists t, terminals evs = [t] /\ terminalFor repoFolderPath mainBranch t).
Proof.
  intros Hlist Hparse repoFolderPath mainBranch.
  rewrite (cloneRepository_after_listing _ _ _ _ _ _ _ Hlist).
  rewrite (cloneSelected_run _ _ _ _ _ _ Hparse). cbv zeta.
  destruct bs as [|b bs].
  { eexists [], _. split; [reflexivity|]. split; [reflexivity|].
    split; [reflexivity | congruence]. }
  assert (Hmain : (if JS.arrayIncludes (b :: bs) "main"
                   then "main" else "master") = mainBranch).
  { subst mainBranch.
    destruct (in_dec string_dec "main" (b :: bs)) as [Hin|Hin].
    - apply arrayIncludes_In in Hin. now rewrite Hin.
    - destruct (JS.arrayIncludes (b :: bs) "main") eqn:E; [|reflexivity].
      apply arrayIncludes_In in E. contradiction. }
  rewrite Hmain. fold repoFolderPath.
  destruct (cloneBranchToFolder_attempt repoUrl mainBranch repoFolderPath
              (record (announcement text (b :: bs)) s1))
    as [evs [s2 [Hrun [E Hattempt]]]].
  rewrite Hrun. exists evs, s2. split; [reflexivity|]. split.
  - rewrite E. cbn. now rewrite <- app_assoc.
  - split; [discriminate|]. intros _. split; [assumption|].
    destruct (attemptOf_observed _ _ _ Hattempt) as [Hp [_ Ht]]. now split.
Qed.

(** What [cloneRepository] does after the listing when all branches are
    asked for: one attempt per branch, in the order of the listing. *)
Lemma cloneRepository_all (repoUrl parent repoName text : string)
      (bs : list string) (s s1 : State W) :
  listRemoteRefs repoUrl (path_join parent repoName) s = (Returned text, s1) ->
  parseRemoteBranchNames text = Returned bs ->
  exists segs s2,
    cloneRepository repoUrl parent repoName true s = (Returned tt, s2) /\
    trace s2 = (trace s1 ++ announcement text bs :: concat segs)%list /\
    Forall2 (attemptOf (path_join parent repoName)) bs segs.
Proof.
  intros Hlist Hparse.
  rewrite (cloneRepository_after_listing _ _ _ _ _ _ _ Hlist).
  rewrite (cloneSelected_run _ _ _ _ _ _ Hparse). cbv zeta.
  destruct bs as [|b bs].
  { exists [], (record (announcement text []) s1).
    split; [reflexivity|]. split; [reflexivity | constructor]. }
  destruct (forOf_attempts repoUrl (path_join parent repoName) (b :: bs)
              (record (announcement text (b :: bs)) s1))
    as [segs [s2 [Hrun [E Hattempts]]]].
  rewrite Hrun. exists segs, s2. split; [reflexivity|].
  split; [|assumption]. rewrite E. cbn. now rewrite <- app_assoc.
Qed.

(** C3, as the code has it. When all branches are asked for and the
    listing yields the branches b1 .. bN, [cloneRepository] makes exactly N
    materialisation attempts, one per branch and in the order of the
    listing, the i-th on the path that joins the repository folder and the
    sanitised name of bi. Two branches get the same path as soon as their
    sanitised names agree; the paths are pairwise distinct exactly when
    the sanitised names are, provided the join keeps distinct sanitised
    names apart. *)
Theorem all_branches_attempted_in_order
        (repoUrl parent repoName text : string) (bs : list string)
        (s s1 : State W) :
  listRemoteRefs repoUrl (path_join parent repoName) s = (Returned text, s1) ->
  parseRemoteBranchNames text = Returned bs ->
  let repoFolderPath := path_join parent repoName in
  exists segs s2,
    cloneRepository repoUrl parent repoName true s = (Returned tt, s2) /\
    trace s2 = (trace s1 ++ announcement text bs :: concat segs)%list /\
    Forall2 (attemptOf repoFolderPath) bs segs /\
    List.length segs = List.length bs /\
    probes (concat segs) = map (branchFolder repoFolderPath) bs /\
    (forall a b,
        sanitizeFolderName a = sanitizeFolderName b ->
        branchFolder repoFolderPath a = branchFolder repoFolderPath b) /\
    (NoDup (map (branchFolder repoFolderPath) bs) ->
     NoDup (map sanitizeFolderName bs)) /\
    ((forall x y,
         In x (map sanitizeFolderName bs) ->
         In y (map sanitizeFolderName bs) ->
         path_join repoFolderPath x = path_join repoFolderPath y -> x = y) ->
     NoDup (map sanitizeFolderName bs) ->
     NoDup (map (branchFolder repoFolderPath) bs)).
Proof.
  intros Hlist Hparse repoFolderPath.
  destruct (cloneRepository_all _ _ _ _ _ _ _ Hlist Hparse)
    as [segs [s2 [Hrun [E Hattempts]]]].
  fold repoFolderPath in Hattempts.
  exists segs, s2. split; [assumption|]. split; [assumption|].
  split; [assumption|].
  split; [symmetry; eapply Forall2_length; eassumption|].
  split; [apply (attempts_observed _ _ _ Hattempts)|].
  split; [intros a b H; unfold branchFolder; now rewrite H|].
  change (map (branchFolder repoFolderPath) bs)
    with (map (fun b => path_join repoFolderPath (sanitizeFolderName b)) bs).
  rewrite <- (map_map sanitizeFolderName (path_join repoFolderPath)).
  split.
  - apply NoDup_map_inv.
  - intros Hinj Hnodup. apply NoDup_map_NoDup_ForallPairs; assumption.
Qed.

(** C5. When all branches are asked for, every branch of the listing gets
    its own segment of the trace and reaches its own terminal state
    (skipped, done or failed), whatever the host does to the others: a
    branch that fails, at checkout or anywhere else, ends in its own
    [error] line and the loop goes on with the next branch. *)
Theorem failed_branch_does_not_stop_siblings
        (repoUrl parent repoName text : string) (bs : list string)
        (s s1 : State W) :
  listRemoteRefs repoUrl (path_join parent repoName) s = (Returned text, s1) ->
  parseRemoteBranchNames text = Returned bs ->
  let repoFolderPath := path_join parent repoName in
  exists segs s2,
    cloneRepository repoUrl parent repoName true s = (Returned tt, s2) /\
    trace s2 = (trace s1 ++ announcement text bs :: concat segs)%list /\
    Forall2 (terminalFor repoFolderPath) bs (terminals (concat segs)) /\
    forall i b,
      nth_error bs i = Some b ->
      exists seg t,
        nth_error segs i = Some seg /\
        terminals seg = [t] /\
        nth_error (terminals (concat segs)) i = Some t /\
        terminalFor repoFolderPath b t.
Proof.
  intros Hlist Hparse repoFolderPath.
  destruct (cloneRepository_all _ _ _ _ _ _ _ Hlist Hparse)
    as [segs [s2 [Hrun [E Hattempts]]]].
  fold repoFolderPath in Hattempts.
  exists segs, s2. split; [assumption|]. split; [assumption|].
  split; [apply (attempts_observed _ _ _ Hattempts)|].
  clear - Hattempts. induction Hattempts as [|b0 seg bs segs Hb Hrest IH].
  - intros [|i] b H; discriminate.
  - destruct (attemptOf_observed _ _ _ Hb) as [_ [_ [t [Ht Hfor]]]].
    cbn [concat]. unfold terminals in *. rewrite collect_app, Ht.
    intros [|i] b H; cbn in H.
    + injection H as <-. exists seg, t. now repeat split.
    + destruct (IH i b H) as [seg' [t' [H1 [H2 [H3 H4]]]]].
      exists seg', t'. now repeat split.
Qed.

(** C10. The choice between [remote set-url] and [remote add] is a
    substring test on the text that [remote show] printed: when the word
    origin occurs anywhere in it the next call is set-url on origin, and
    when it does not the next call is add. A text such as my-origin, in
    which the word occurs inside the name of another remote, takes the
    set-url side. *)
Theorem origin_choice_is_substring_test
        (folderPath repoUrl text : string) (s : State W) (w1 : W) :
  git_exec folderPath (Raw ["remote"; "show"]) (world s)
  = (Returned text, w1) ->
  exists evs,
    trace (snd (configureOrigin folderPath repoUrl s))
    = (trace s ++ evs)%list /\
    (Occurs "origin" text ->
     gitCalls evs =
     [(folderPath, Raw ["remote"; "show"]);
      (folderPath, Raw ["remote"; "set-url"; "origin"; repoUrl])]) /\
    (~ Occurs "origin" text ->
     gitCalls evs =
     [(folderPath, Raw ["remote"; "show"]);
      (folderPath, Raw ["remote"; "add"; "origin"; repoUrl])]) /\
    Occurs "origin" ("my-origin" ++ String JS.NL "").
Proof.
  intros Hshow. unfold configureOrigin.
  unfold bind at 1. unfold bind at 1. cbn [git_cwd]. unfold git_run at 1.
  cbn [world gitCwd trace]. rewrite Hshow.
  destruct (JS.includes text "origin") eqn:Hinc.
  - apply includes_Occurs in Hinc.
    unfold bind, logger, git_cwd, git_run, record, ret. cbn.
    destruct (git_exec _ _ w1) as [[r|e] w2]; cbn;
      (eexists; split; [rewrite <- !app_assoc; reflexivity|]);
      (split; [reflexivity|]); (split; [contradiction|]);
      now exists "my-", (String JS.NL "").
  - assert (Hno : ~ Occurs "origin" text).
    { intros H. apply includes_Occurs in H. congruence. }
    unfold bind, logger, git_cwd, git_run, record, ret. cbn.
    destruct (git_exec _ _ w1) as [[r|e] w2]; cbn;
      (eexists; split; [rewrite <- !app_assoc; reflexivity|]);
      (split; [contradiction|]); (split; [reflexivity|]);
      now exists "my-", (String JS.NL "").
Qed.

End Mirror.

(** ** Runs on the reference host *)

Lemma existing_folder_is_skipped_witness :
  existsSync (branchFolder "root/r" "main") Sim.alreadyCloned = true /\
  world (snd (cloneBranchToFolder Sim.url "main" "root/r"
                (Sim.start Sim.alreadyCloned)))
  = Sim.alreadyCloned.
Proof.
  split; [reflexivity|].
  apply (existing_folder_is_skipped Sim.url "main" "root/r"
           (Sim.start Sim.alreadyCloned)).
  reflexivity.
Defined.

Lemma empty_listing_soft_fails_witness :
  exists s1,
    listRemoteRefs Sim.url (path_join "root" "r") (Sim.start Sim.emptyRemote)
    = (Returned "", s1) /\
    cloneRepository Sim.url "root" "r" true (Sim.start Sim.emptyRemote)
    = (Returned tt, record (Log warn CouldNotFetchBranchInformation) s1).
Proof.
  eexists. split; [reflexivity|].
  apply (empty_listing_soft_fails Sim.url "root" "r" "" true
           (Sim.start Sim.emptyRemote)).
  - reflexivity.
  - left. reflexivity.
Defined.

(** Neither main nor master is on the remote, and yet a folder for master
    is made, a repository is initialised in it and its checkout fails. *)
Lemma neither_main_nor_master_counterexample :
  let run := cloneRepository Sim.url "root" "r" false
               (Sim.start Sim.onlyDevelop) in
  parseRemoteBranchNames (Sim.listing Sim.onlyDevelop)
  = Returned ["develop"] /\
  probes (trace (snd run)) = ["root/r"; "root/r/master"] /\
  terminals (trace (snd run))
  = [Failed "master" "error: pathspec did not match"] /\
  Sim.dirs (world (snd run)) = ["root/r"; "root/r/master"] /\
  In ("root/r/master", Checkout ["master"]) (gitCalls (trace (snd run))) /\
  terminals (trace (snd run)) <> [].
Proof.
  vm_compute. repeat split; try reflexivity.
  - repeat ((left; reflexivity) || right).
  - discriminate.
Qed.

Lemma single_branch_is_main_or_master_witness :
  exists evs s2,
    cloneRepository Sim.url "root" "r" false (Sim.start Sim.mainAndDevelop)
    = (Returned tt, s2) /\
    probes evs = ["root/r/main"] /\
    exists t, terminals evs = [t] /\ terminalFor "root/r" "main" t.
Proof.
  assert (Hlist :
            listRemoteRefs Sim.url (path_join "root" "r")
              (Sim.start Sim.mainAndDevelop)
            = (Returned (Sim.listing Sim.mainAndDevelop),
               snd (listRemoteRefs Sim.url (path_join "root" "r")
                      (Sim.start Sim.mainAndDevelop)))) by reflexivity.
  destruct (single_branch_is_main_or_master
              Sim.url "root" "r" _ ["develop"; "main"] _ _ Hlist eq_refl)
    as [evs [s2 [Hrun [_ [_ Hone]]]]].
  destruct (Hone ltac:(discriminate)) as [_ [Hprobes Hterminal]].
  exists evs, s2. split; [exact Hrun|]. split; [exact Hprobes|].
  exact Hterminal.
Defined.

(** Two branches of one remote, feat/x and feat_x, get the same target
    path: the second attempt finds the folder of the first and skips. *)
Lemma colliding_branches_counterexample :
  let run := cloneRepository Sim.url "root" "r" true
               (Sim.start Sim.colliding) in
  parseRemoteBranchNames (Sim.listing Sim.colliding)
  = Returned ["feat/x"; "feat_x"] /\
  NoDup ["feat/x"; "feat_x"] /\
  map (branchFolder "root/r") ["feat/x"; "feat_x"]
  = ["root/r/feat_x"; "root/r/feat_x"] /\
  ~ NoDup (map (branchFolder "root/r") ["feat/x"; "feat_x"]) /\
  probes (trace (snd run)) = ["root/r"; "root/r/feat_x"; "root/r/feat_x"] /\
  terminals (trace (snd run))
  = [Done "feat/x" "root/r/feat_x"; Skipped "root/r/feat_x"].
Proof.
  repeat split; try reflexivity.
  - repeat constructor; simpl; intuition discriminate.
  - intros H. inversion H as [|x l Hin _]. apply Hin. now left.
Qed.

Lemma all_branches_attempted_in_order_witness :
  exists segs s2,
    cloneRepository Sim.url "root" "r" true (Sim.start Sim.secondFails)
    = (Returned tt, s2) /\
    List.length segs = 3 /\
    probes (concat segs) = ["root/r/main"; "root/r/dev"; "root/r/docs"] /\
    NoDup (map (branchFolder "root/r") ["main"; "dev"; "docs"]).
Proof.
  assert (Hlist :
            listRemoteRefs Sim.url (path_join "root" "r")
              (Sim.start Sim.secondFails)
            = (Returned (Sim.listing Sim.secondFails),
               snd (listRemoteRefs Sim.url (path_join "root" "r")
                      (Sim.start Sim.secondFails)))) by reflexivity.
  destruct (all_branches_attempted_in_order
              Sim.url "root" "r" _ ["main"; "dev"; "docs"] _ _ Hlist eq_refl)
    as [segs [s2 [Hrun [_ [_ [Hlen [Hprobes [_ [_ Hdistinct]]]]]]]]].
  exists segs, s2. split; [exact Hrun|]. split; [exact Hlen|].
  split; [exact Hprobes|]. apply Hdistinct.
  - intros x y _ _ H. unfold path_join in H. simpl in H.
    unfold Sim.join in H. simpl in H. now injection H.
  - repeat constructor; simpl; intuition discriminate.
Defined.

Lemma failed_branch_does_not_stop_siblings_witness :
  terminals (trace (snd (cloneRepository Sim.url "root" "r" true
                           (Sim.start Sim.secondFails))))
  = [Done "main" "root/r/main";
     Failed "dev" "error: pathspec did not match";
     Done "docs" "root/r/docs"] /\
  exists segs s2,
    cloneRepository Sim.url "root" "r" true (Sim.start Sim.secondFails)
    = (Returned tt, s2) /\
    Forall2 (terminalFor "root/r") ["main"; "dev"; "docs"]
            (terminals (concat segs)).
Proof.
  split; [reflexivity|].
  assert (Hlist :
            listRemoteRefs Sim.url (path_join "root" "r")
              (Sim.start Sim.secondFails)
            = (Returned (Sim.listing Sim.secondFails),
               snd (listRemoteRefs Sim.url (path_join "root" "r")
                      (Sim.start Sim.secondFails)))) by reflexivity.
  destruct (failed_branch_does_not_stop_siblings
              Sim.url "root" "r" _ ["main"; "dev"; "docs"] _ _ Hlist eq_refl)
    as [segs [s2 [Hrun [_ [Hall _]]]]].
  exists segs, s2. split; [exact Hrun | exact Hall].
Defined.

Lemma origin_choice_is_substring_test_witness :
  Sim.lookup "origin" [("my-origin", "https://github.com/me/fork.git")]
  = None /\
  exists evs,
    trace (snd (configureOrigin "root/r" Sim.url
                  (Sim.start Sim.withMyOrigin))) = evs /\
    gitCalls evs =
    [("root/r", Raw ["remote"; "show"]);
     ("root/r", Raw ["remote"; "set-url"; "origin"; Sim.url])].
Proof.
  split; [reflexivity|].
  assert (Hshow :
            git_exec "root/r" (Raw ["remote"; "show"])
                     (world (Sim.start Sim.withMyOrigin))
            = (Returned ("my-origin" ++ String JS.NL ""), Sim.withMyOrigin))
    by reflexivity.
  destruct (origin_choice_is_substring_test
              "root/r" Sim.url _ (Sim.start Sim.withMyOrigin) _ Hshow)
    as [evs [Htrace [Hset [_ Hocc]]]].
  exists evs. split; [exact Htrace | exact (Hset Hocc)].
Defined.

(** C6, at a folder whose repository has a remote named my-origin and
    none named origin: both runs of the remote configuration choose
    set-url, git refuses it, and no remote origin exists afterwards. The
    same holds for two full runs of [cloneRepository], which end in the
    error line of the log. *)
Theorem origin_missing_beside_my_origin :
  let s0 := Sim.start Sim.withMyOrigin in
  let step1 := configureOrigin "root/r" Sim.url s0 in
  let step2 := configureOrigin "root/r" Sim.url (snd step1) in
  let run1 := cloneRepository Sim.url "root" "r" false s0 in
  let run2 := cloneRepository Sim.url "root" "r" false (snd run1) in
  Sim.remotesOf "root/r" (world s0)
  = Some [("my-origin", "https://github.com/me/fork.git")] /\
  fst step1 = Threw "error: No such remote" /\
  fst step2 = Threw "error: No such remote" /\
  gitCalls (trace (snd step2)) =
  [("root/r", Raw ["remote"; "show"]);
   ("root/r", Raw ["remote"; "set-url"; "origin"; Sim.url]);
   ("root/r", Raw ["remote"; "show"]);
   ("root/r", Raw ["remote"; "set-url"; "origin"; Sim.url])] /\
  Sim.remotesOf "root/r" (world (snd step2))
  = Some [("my-origin", "https://github.com/me/fork.git")] /\
  Sim.remotesOf "root/r" (world (snd run2))
  = Some [("my-origin", "https://github.com/me/fork.git")] /\
  last (trace (snd run2)) (FsExists "")
  = Log error (ErrorCloningRepository "error: No such remote").
Proof. vm_compute. repeat split. Qed.

(** On a fresh folder the same two runs do what C6 says: the first adds
    origin, the second repoints it, and one remote is left. *)
Example origin_configured_once_on_fresh_folder :
  let s0 := Sim.start (Sim.mkWorld ["root/r"] [("root/r", [])] "" []) in
  let step1 := configureOrigin "root/r" Sim.url s0 in
  let step2 := configureOrigin "root/r" Sim.url (snd step1) in
  gitCalls (trace (snd step2)) =
  [("root/r", Raw ["remote"; "show"]);
   ("root/r", Raw ["remote"; "add"; "origin"; Sim.url]);
   ("root/r", Raw ["remote"; "show"]);
   ("root/r", Raw ["remote"; "set-url"; "origin"; Sim.url])] /\
  Sim.remotesOf "root/r" (world (snd step2)) = Some [("origin", Sim.url)].
Proof. vm_compute. split; reflexivity. Qed.

(** ** Remote configuration on the reference host *)

Lemma needle_within (needle m rest after : string) :
  (forall c, In c (list_ascii_of_string needle) -> c <> JS.NL) ->
  needle ++ after = m ++ String JS.NL rest ->
  exists a, m = needle ++ a.
Proof.
  revert m. induction needle as [|x needle IH]; intros m Hnl H.
  - now exists m.
  - destruct m as [|y m]; simpl in H; injection H as Hx H.
    + elim (Hnl x); [now left | assumption].
    + subst y. destruct (IH m) as [a Ha]; [|assumption|].
      * intros c Hc. apply Hnl. now right.
      * exists a. simpl. now rewrite Ha.
Qed.

Lemma Occurs_line (needle name rest : string) :
  needle <> "" ->
  (forall c, In c (list_ascii_of_string needle) -> c <> JS.NL) ->
  Occurs needle (name ++ String JS.NL rest) ->
  Occurs needle name \/ Occurs needle rest.
Proof.
  intros Hne Hnl [before [after H]]. revert before H.
  induction name as [|c name IH]; intros before H.
  - destruct before as [|b before]; simpl in H.
    + destruct needle as [|x needle]; [congruence|].
      simpl in H. injection H as Hx _. elim (Hnl x); [now left | congruence].
    + injection H as _ H. right. now exists before, after.
  - destruct before as [|b before].
    + left. symmetry in H.
      destruct (needle_within needle (String c name) rest after Hnl H)
        as [a Ha].
      now exists "", a.
    + simpl in H. injection H as _ H.
      destruct (IH before H) as [[b' [a' E]]|Hrest]; [left | now right].
      exists (String c b'), a'. simpl. now rewrite E.
Qed.

Lemma showRemotes_Occurs (needle : string) (rs : list (string * string)) :
  needle <> "" ->
  (forall c, In c (list_ascii_of_string needle) -> c <> JS.NL) ->
  Occurs needle (Sim.showRemotes rs) <->
  exists name, In name (map fst rs) /\ Occurs needle name.
Proof.
  intros Hne Hnl. induction rs as [|[name url] rs IH]; simpl.
  - split.
    + intros [[|b before] [after H]]; [|discriminate].
      destruct needle; [congruence | discriminate].
    + intros [name [[] _]].
  - split.
    + intros H. apply Occurs_line in H; try assumption.
      destruct H as [H|H].
      * exists name. split; [now left | assumption].
      * apply IH in H. destruct H as [n [Hin Hn]].
        exists n. split; [now right | assumption].
    + intros [n [[<-|Hin] [before [after E]]]].
      * exists before, (after ++ String JS.NL (Sim.showRemotes rs)).
        rewrite E, !append_assoc. reflexivity.
      * destruct (proj2 IH) as [b' [a' E']].
        { exists n. split; [assumption | now exists before, after]. }
        exists (name ++ String JS.NL b'), a'.
        rewrite E', append_assoc. reflexivity.
Qed.

Lemma lookup_In {A : Type} (k : string) (kvs : list (string * A)) :
  Sim.lookup k kvs <> None <-> In k (map fst kvs).
Proof.
  induction kvs as [|[k' v] kvs IH]; simpl; [tauto|].
  destruct (String.eqb_spec k k') as [->|Hk].
  - split; [now left | discriminate].
  - rewrite IH. split; [now right | intros [E|H]; congruence].
Qed.

Lemma lookup_update {A : Type} (k : string) (v : A) (kvs : list (string * A)) :
  Sim.lookup k (Sim.update k v kvs) = Some v.
Proof.
  induction kvs as [|[k' v'] kvs IH]; simpl.
  - now rewrite String.eqb_refl.
  - destruct (String.eqb_spec k k') as [->|Hk]; simpl.
    + now rewrite String.eqb_refl.
    + destruct (String.eqb_spec k k'); [contradiction | assumption].
Qed.

Lemma lookup_app_new {A : Type} (k : string) (v : A) (kvs : list (string * A)) :
  Sim.lookup k kvs = None -> Sim.lookup k (kvs ++ [(k, v)]) = Some v.
Proof.
  induction kvs as [|[k' v'] kvs IH]; simpl.
  - now rewrite String.eqb_refl.
  - destruct (String.eqb k k'); [discriminate | assumption].
Qed.

Lemma update_update {A : Type} (k : string) (v : A) (kvs : list (string * A)) :
  Sim.update k v (Sim.update k v kvs) = Sim.update k v kvs.
Proof.
  induction kvs as [|[k' v'] kvs IH]; simpl.
  - now rewrite String.eqb_refl.
  - destruct (String.eqb_spec k k') as [->|Hk]; simpl.
    + now rewrite String.eqb_refl.
    + destruct (String.eqb_spec k k'); [contradiction | now rewrite IH].
Qed.

Lemma update_app_new {A : Type} (k : string) (v : A) (kvs : list (string * A)) :
  Sim.lookup k kvs = None ->
  Sim.update k v (kvs ++ [(k, v)]) = (kvs ++ [(k, v)])%list.
Proof.
  induction kvs as [|[k' v'] kvs IH]; simpl.
  - now rewrite String.eqb_refl.
  - destruct (String.eqb k k'); [discriminate|]. intros H. now rewrite IH.
Qed.

Lemma update_names {A : Type} (k : string) (v : A) (kvs : list (string * A)) :
  Sim.lookup k kvs <> None -> map fst (Sim.update k v kvs) = map fst kvs.
Proof.
  induction kvs as [|[k' v'] kvs IH]; simpl; [congruence|].
  destruct (String.eqb_spec k k') as [->|Hk]; simpl; [reflexivity|].
  intros H. now rewrite IH.
Qed.

(** The listing mentions origin exactly when a remote is named origin,
    provided no other name contains the word. *)
Lemma includes_origin (rs : list (string * string)) :
  (forall name, In name (map fst rs) -> Occurs "origin" name ->
                name = "origin") ->
  JS.includes (Sim.showRemotes rs) "origin" = true <->
  Sim.lookup "origin" rs <> None.
Proof.
  intros Hclean. rewrite includes_Occurs, lookup_In, showRemotes_Occurs.
  - split.
    + intros [name [Hin Hocc]]. now rewrite <- (Hclean name Hin Hocc).
    + intros Hin. exists "origin". split; [assumption | now exists "", ""].
  - discriminate.
  - intros c Hc. simpl in Hc.
    repeat (destruct Hc as [<-|Hc]; [discriminate|]). destruct Hc.
Qed.

Lemma exec_show (f : string) (w : Sim.World) (rs : list (string * string)) :
  Sim.mem f (Sim.dirs w) = true ->
  Sim.remotesOf f w = Some rs ->
  Sim.exec f (Raw ["remote"; "show"]) w = (Returned (Sim.showRemotes rs), w).
Proof.
  unfold Sim.remotesOf, Sim.exec. intros -> ->. reflexivity.
Qed.

Lemma exec_add (f name url : string) (w : Sim.World)
      (rs : list (string * string)) :
  Sim.mem f (Sim.dirs w) = true ->
  Sim.remotesOf f w = Some rs ->
  Sim.lookup name rs = None ->
  Sim.exec f (Raw ["remote"; "add"; name; url]) w
  = (Returned "", Sim.setRemotes f (rs ++ [(name, url)]) w).
Proof.
  unfold Sim.remotesOf, Sim.exec. intros -> -> H. cbn. now rewrite H.
Qed.

Lemma exec_set_url (f name url old : string) (w : Sim.World)
      (rs : list (string * string)) :
  Sim.mem f (Sim.dirs w) = true ->
  Sim.remotesOf f w = Some rs ->
  Sim.lookup name rs = Some old ->
  Sim.exec f (Raw ["remote"; "set-url"; name; url]) w
  = (Returned "", Sim.setRemotes f (Sim.update name url rs) w).
Proof.
  unfold Sim.remotesOf, Sim.exec. intros -> -> H. cbn. now rewrite H.
Qed.

(** One run of the remote configuration on a repository none of whose
    other remotes has origin in its name. *)
Lemma configureOrigin_on_repository (f url : string) (s : State Sim.World)
      (rs : list (string * string)) :
  Sim.mem f (Sim.dirs (world s)) = true ->
  Sim.remotesOf f (world s) = Some rs ->
  (forall name, In name (map fst rs) -> Occurs "origin" name ->
                name = "origin") ->
  exists s',
    configureOrigin f url s = (Returned tt, s') /\
    Sim.dirs (world s') = Sim.dirs (world s) /\
    Sim.remotesOf f (world s') = Some (Sim.withOrigin url rs) /\
    gitCalls (trace s') =
    (gitCalls (trace s) ++
     [(f, Raw ["remote"; "show"]);
      (f, Raw ["remote";
               match Sim.lookup "origin" rs with
               | Some _ => "set-url"
               | None => "add"
               end; "origin"; url])])%list.
Proof.
  intros Hdir Hrepo Hclean.
  unfold configureOrigin.
  unfold bind at 1. unfold bind at 1. cbn [git_cwd]. unfold git_run at 1.
  cbn [world gitCwd trace git_exec Sim.host].
  rewrite (exec_show f _ rs Hdir Hrepo).
  pose proof (includes_origin rs Hclean) as Hinc.
  unfold Sim.withOrigin.
  destruct (Sim.lookup "origin" rs) as [old|] eqn:Hlook.
  - rewrite (proj2 Hinc) by discriminate.
    unfold bind, logger, git_cwd, git_run, record, ret.
    cbn [world gitCwd trace git_exec Sim.host].
    rewrite (exec_set_url f "origin" url old _ rs Hdir Hrepo Hlook).
    eexists. split; [reflexivity|]. cbn [world trace Sim.setRemotes Sim.dirs].
    repeat split.
    + unfold Sim.remotesOf. cbn. apply lookup_update.
    + unfold gitCalls. rewrite !collect_app. cbn. now rewrite <- !app_assoc.
  - destruct (JS.includes (Sim.showRemotes rs) "origin") eqn:E.
    { now elim (proj1 Hinc eq_refl). }
    unfold bind, logger, git_cwd, git_run, record, ret.
    cbn [world gitCwd trace git_exec Sim.host].
    rewrite (exec_add f "origin" url _ rs Hdir Hrepo Hlook).
    eexists. split; [reflexivity|]. cbn [world trace Sim.setRemotes Sim.dirs].
    repeat split.
    + unfold Sim.remotesOf. cbn. apply lookup_update.
    + unfold gitCalls. rewrite !collect_app. cbn. now rewrite <- !app_assoc.
Qed.

Lemma withOrigin_lookup (url : string) (rs : list (string * string)) :
  Sim.lookup "origin" (Sim.withOrigin url rs) = Some url.
Proof.
  unfold Sim.withOrigin. destruct (Sim.lookup "origin" rs) eqn:E.
  - apply lookup_update.
  - now apply lookup_app_new.
Qed.

Lemma withOrigin_again (url : string) (rs : list (string * string)) :
  Sim.withOrigin url (Sim.withOrigin url rs) = Sim.withOrigin url rs.
Proof.
  unfold Sim.withOrigin at 1. rewrite withOrigin_lookup.
  unfold Sim.withOrigin. destruct (Sim.lookup "origin" rs) eqn:E.
  - apply update_update.
  - now apply update_app_new.
Qed.

Lemma withOrigin_names (url : string) (rs : list (string * string)) (name : string) :
  In name (map fst (Sim.withOrigin url rs)) ->
  In name (map fst rs) \/ name = "origin".
Proof.
  unfold Sim.withOrigin. destruct (Sim.lookup "origin" rs) eqn:E.
  - rewrite update_names by congruence. now left.
  - rewrite map_app, in_app_iff. simpl. intuition.
Qed.

Lemma named_absent (name : string) (rs : list (string * string)) :
  ~ In name (map fst rs) -> Sim.named name rs = [].
Proof.
  induction rs as [|[n u] rs IH]; simpl; [reflexivity|].
  intros H. destruct (String.eqb_spec n name) as [->|Hn].
  - elim H. now left.
  - apply IH. intros Hin. apply H. now right.
Qed.

Lemma withOrigin_named (url : string) (rs : list (string * string)) :
  NoDup (map fst rs) ->
  Sim.named "origin" (Sim.withOrigin url rs) = [("origin", url)].
Proof.
  unfold Sim.withOrigin. intros Hnd.
  destruct (Sim.lookup "origin" rs) eqn:E.
  - assert (Hin : Sim.lookup "origin" rs <> None) by congruence. clear E.
    induction rs as [|[n u] rs IH]; [now elim Hin|].
    cbn [map fst] in Hnd. inversion Hnd as [|? ? Hnotin Hnd']; subst.
    cbn [Sim.lookup] in Hin. cbn [Sim.update]. unfold Sim.named in *.
    destruct (String.eqb_spec "origin" n) as [<-|Hn]; cbn [filter fst].
    + rewrite String.eqb_refl. fold (Sim.named "origin" rs).
      now rewrite (named_absent _ _ Hnotin).
    + destruct (String.eqb_spec n "origin"); [congruence|].
      now apply IH.
  - assert (Hnot : ~ In "origin" (map fst rs)).
    { intros H. apply lookup_In in H. congruence. }
    unfold Sim.named. rewrite filter_app.
    fold (Sim.named "origin" rs). rewrite (named_absent _ _ Hnot).
    reflexivity.
Qed.

(** Idempotence of the remote configuration where it holds: on a
    repository whose other remotes do not have origin in their names, two
    runs with one URL leave exactly one remote named origin, set to that
    URL, and the second run repoints it with set-url. *)
Theorem origin_configured_once (f url : string) (s : State Sim.World)
        (rs : list (string * string)) :
  Sim.mem f (Sim.dirs (world s)) = true ->
  Sim.remotesOf f (world s) = Some rs ->
  NoDup (map fst rs) ->
  (forall name, In name (map fst rs) -> Occurs "origin" name ->
                name = "origin") ->
  exists s1 s2,
    configureOrigin f url s = (Returned tt, s1) /\
    configureOrigin f url s1 = (Returned tt, s2) /\
    Sim.remotesOf f (world s2) = Sim.remotesOf f (world s1) /\
    Sim.remotesOf f (world s2) = Some (Sim.withOrigin url rs) /\
    Sim.named "origin" (Sim.withOrigin url rs) = [("origin", url)] /\
    gitCalls (trace s2) =
    (gitCalls (trace s1) ++
     [(f, Raw ["remote"; "show"]);
      (f, Raw ["remote"; "set-url"; "origin"; url])])%list.
Proof.
  intros Hdir Hrepo Hnd Hclean.
  destruct (configureOrigin_on_repository f url s rs Hdir Hrepo Hclean)
    as [s1 [Hrun1 [Hdirs1 [Hrepo1 _]]]].
  destruct (configureOrigin_on_repository f url s1 (Sim.withOrigin url rs))
    as [s2 [Hrun2 [_ [Hrepo2 Hcalls]]]]; try assumption.
  - now rewrite Hdirs1.
  - intros name Hin Hocc. apply withOrigin_names in Hin.
    destruct Hin as [Hin|Hin]; [now apply Hclean | assumption].
  - rewrite withOrigin_again in Hrepo2. rewrite withOrigin_lookup in Hcalls.
    exists s1, s2. repeat split; try assumption.
    + now rewrite Hrepo1, Hrepo2.
    + now apply withOrigin_named.
Qed.

Lemma origin_configured_once_witness :
  exists s1 s2,
    configureOrigin "root/r" Sim.url (Sim.start Sim.alreadyCloned)
    = (Returned tt, s1) /\
    configureOrigin "root/r" Sim.url s1 = (Returned tt, s2) /\
    Sim.remotesOf "root/r" (world s2) = Some [("origin", Sim.url)].
Proof.
  destruct (origin_configured_once "root/r" Sim.url
              (Sim.start Sim.alreadyCloned) [("origin", Sim.url)])
    as [s1 [s2 [H1 [H2 [_ [H3 _]]]]]].
  - reflexivity.
  - reflexivity.
  - repeat constructor. simpl. tauto.
  - intros name [<-|[]] _. reflexivity.
  - exists s1, s2. repeat split; assumption.
Defined.

(** * Further properties *)

(** ** Sanitised names *)

(** X1. Sanitising a sanitised name changes nothing. *)
Theorem sanitizeFolderName_idempotent (name : string) :
  sanitizeFolderName (sanitizeFolderName name) = sanitizeFolderName name.
Proof.
  induction name as [|c name IH]; [reflexivity|].
  rewrite !sanitize_cons, IH. f_equal.
  destruct (illegal c) eqn:E; [reflexivity|]. now rewrite E.
Qed.

Lemma sanitized_char (x y : ascii) :
  (if illegal x then "_"%char else x) = (if illegal y then "_"%char else y)
  <-> x = y \/ (blank x /\ blank y).
Proof.
  unfold blank. destruct (illegal x) eqn:Ex, (illegal y) eqn:Ey; split;
    try (intros H; subst; tauto);
    try (intros [H|[[H1|H1] [H2|H2]]]; subst; congruence).
Qed.

(** X2. Two branch names get the same folder name exactly when they have the
    same length and differ only at positions where both have an illegal
    character or an underscore. *)
Theorem sanitizeFolderName_collisions (a b : string) :
  sanitizeFolderName a = sanitizeFolderName b <-> alike a b.
Proof.
  unfold alike. revert b. induction a as [|x a IH]; intros [|y b].
  - split; [constructor | reflexivity].
  - rewrite sanitize_cons. split; [discriminate | intros H; inversion H].
  - rewrite sanitize_cons. split; [discriminate | intros H; inversion H].
  - rewrite !sanitize_cons. cbn [list_ascii_of_string]. split.
    + intros H. injection H as Hc Hrest. constructor.
      * now apply sanitized_char.
      * now apply IH.
    + intros H. inversion H as [|? ? ? ? Hc Hrest]; subst. f_equal.
      * now apply sanitized_char.
      * now apply IH.
Qed.

(** ** The ref listing, line by line *)

Lemma split_nonempty (sep : ascii) (s : string) : JS.split sep s <> [].
Proof.
  destruct s as [|c s]; cbn [JS.split]; [discriminate|].
  destruct (Ascii.eqb c sep); [discriminate|].
  destruct (JS.split sep s); discriminate.
Qed.

Lemma split_app (sep : ascii) (a b : string) :
  JS.split sep (a ++ String sep b) = (JS.split sep a ++ JS.split sep b)%list.
Proof.
  induction a as [|c a IH]; cbn [append JS.split app].
  - now rewrite Ascii.eqb_refl.
  - destruct (Ascii.eqb c sep); [now rewrite IH|].
    rewrite IH. pose proof (split_nonempty sep a) as Hne.
    destruct (JS.split sep a); [contradiction | reflexivity].
Qed.

Lemma split_lacks (sep : ascii) (s : string) :
  lacks sep s -> JS.split sep s = [s].
Proof.
  unfold lacks. induction s as [|c s IH]; intros H; [reflexivity|].
  cbn [JS.split]. destruct (Ascii.eqb_spec c sep) as [->|Hc].
  - elim H. now left.
  - rewrite IH; [reflexivity|]. intros Hin. apply H. now right.
Qed.

Lemma split_fields (sep : ascii) (s field : string) :
  In field (JS.split sep s) ->
  forall c, In c (list_ascii_of_string field) ->
            c <> sep /\ In c (list_ascii_of_string s).
Proof.
  revert field. induction s as [|x s IH]; intros field Hin c Hc.
  - destruct Hin as [<-|[]]. destruct Hc.
  - cbn [JS.split] in Hin. destruct (Ascii.eqb_spec x sep) as [->|Hx].
    + destruct Hin as [<-|Hin]; [destruct Hc|].
      destruct (IH field Hin c Hc). split; [assumption | now right].
    + pose proof (split_nonempty sep s) as Hne.
      destruct (JS.split sep s) as [|f fs] eqn:E; [contradiction|].
      destruct Hin as [<-|Hin].
      * destruct Hc as [<-|Hc]; [split; [assumption | now left]|].
        destruct (IH f (or_introl eq_refl) c Hc).
        split; [assumption | now right].
      * destruct (IH field (or_intror Hin) c Hc).
        split; [assumption | now right].
Qed.

Lemma keep_app {A : Type} (xs ys : list (option A)) :
  BranchSetSpec.keep (xs ++ ys)
  = (BranchSetSpec.keep xs ++ BranchSetSpec.keep ys)%list.
Proof.
  induction xs as [|[x|] xs IH]; cbn; [reflexivity | now rewrite IH | exact IH].
Qed.

Lemma branchSet_app (a b : string) :
  BranchSetSpec.branchSet (a ++ String JS.NL b)
  = (BranchSetSpec.branchSet a ++ BranchSetSpec.branchSet b)%list.
Proof.
  unfold BranchSetSpec.branchSet, BranchSetSpec.lines.
  now rewrite split_app, map_app, keep_app.
Qed.

(** X3. Parsing goes line by line: the branches of a text cut at a newline
    are the branches of the part before it followed by the branches of
    the part after it. *)
Theorem parseRemoteBranchNames_app (a b : string) :
  exists xs ys,
    parseRemoteBranchNames a = Returned xs /\
    parseRemoteBranchNames b = Returned ys /\
    parseRemoteBranchNames (a ++ String JS.NL b) = Returned (xs ++ ys)%list.
Proof.
  exists (BranchSetSpec.branchSet a), (BranchSetSpec.branchSet b).
  rewrite !parse_returns, branchSet_app. repeat split.
Qed.

Lemma stripPrefix_chars (p s r : string) :
  BranchSetSpec.stripPrefix p s = Some r ->
  forall c, In c (list_ascii_of_string r) -> In c (list_ascii_of_string s).
Proof.
  revert s. induction p as [|a p IH]; intros [|b s] H c Hc; cbn in H;
    try discriminate; try (injection H as <-; assumption).
  destruct (Ascii.eqb a b); [|discriminate]. right. now apply (IH s).
Qed.

Lemma keep_In {A : Type} (xs : list (option A)) (x : A) :
  In x (BranchSetSpec.keep xs) <-> In (Some x) xs.
Proof.
  induction xs as [|[y|] xs IH]; cbn; [tauto | |].
  - rewrite IH. split; intros [H|H]; auto; left; congruence.
  - rewrite IH. split; [auto | intros [H|H]; [discriminate | assumption]].
Qed.

(** X4. No branch name that comes out of the parse has a tab or a newline in
    it. *)
Theorem parsed_names_on_one_field (text : string) (bs : list string)
        (b : string) :
  parseRemoteBranchNames text = Returned bs ->
  In b bs ->
  lacks JS.TAB b /\ lacks JS.NL b.
Proof.
  rewrite parse_returns. intros H Hb. injection H as <-.
  unfold BranchSetSpec.branchSet in Hb. apply keep_In, in_map_iff in Hb.
  destruct Hb as [line [Hhead Hline]].
  unfold BranchSetSpec.headOfLine, BranchSetSpec.secondField in Hhead.
  destruct (JS.split JS.TAB line) as [|first [|field rest]] eqn:E;
    try discriminate.
  assert (Hfield : In field (JS.split JS.TAB line)).
  { rewrite E. right. now left. }
  pose proof (stripPrefix_chars _ _ _ Hhead) as Hsub.
  unfold lacks. split; intros Hc.
  - now destruct (split_fields _ _ _ Hfield _ (Hsub _ Hc)).
  - destruct (split_fields _ _ _ Hfield _ (Hsub _ Hc)) as [_ Hin].
    now destruct (split_fields _ _ _ Hline _ Hin).
Qed.

Lemma parsed_names_on_one_field_witness :
  lacks JS.TAB "dev" /\ lacks JS.NL "dev".
Proof.
  apply (parsed_names_on_one_field exampleListing ["main"; "dev"] "dev").
  - reflexivity.
  - right. now left.
Defined.

Lemma lacks_append (c : ascii) (a b : string) :
  lacks c a -> lacks c b -> lacks c (a ++ b).
Proof.
  unfold lacks. induction a as [|x a IH]; cbn; [tauto|].
  intros Ha Hb [H|H]; [apply Ha; now left|].
  apply IH; auto.
Qed.

Lemma stripPrefix_append (p r : string) :
  BranchSetSpec.stripPrefix p (p ++ r) = Some r.
Proof.
  induction p as [|a p IH]; cbn; [reflexivity|].
  now rewrite Ascii.eqb_refl.
Qed.

Lemma headOfLine_head (hash name : string) :
  lacks JS.TAB hash -> lacks JS.TAB name ->
  BranchSetSpec.headOfLine (hash ++ String JS.TAB (headsPrefix ++ name))
  = Some name.
Proof.
  intros Hh Hn. unfold BranchSetSpec.headOfLine, BranchSetSpec.secondField.
  rewrite split_app, (split_lacks _ hash Hh).
  rewrite (split_lacks _ (headsPrefix ++ name)).
  - cbn [app]. apply stripPrefix_append.
  - apply lacks_append; [|assumption].
    unfold lacks. cbn. intros H.
    repeat (destruct H as [H|H]; [discriminate|]). exact H.
Qed.

(** X5. Round trip: a listing with one line per head ref, made of a hash, a
    tab, refs/heads/ and the branch name, parses back to the branch names
    in order, when no hash and no name has a tab or a newline. *)
Theorem parse_headListing (refs : list (string * string)) :
  Forall (fun r => lacks JS.TAB (fst r) /\ lacks JS.NL (fst r) /\
                   lacks JS.TAB (snd r) /\ lacks JS.NL (snd r)) refs ->
  parseRemoteBranchNames (headListing refs) = Returned (map snd refs).
Proof.
  intros H. rewrite parse_returns. f_equal.
  induction H as [|[hash name] refs [Hht [Hhn [Hnt Hnn]]] _ IH];
    [reflexivity|].
  cbn [headListing map snd fst] in *.
  rewrite <- append_assoc.
  replace ((hash ++ String JS.TAB "") ++
           (headsPrefix ++ name) ++ String JS.NL (headListing refs))
    with ((hash ++ String JS.TAB (headsPrefix ++ name))
            ++ String JS.NL (headListing refs)).
  - rewrite branchSet_app, IH.
    unfold BranchSetSpec.branchSet at 1, BranchSetSpec.lines.
    rewrite split_lacks.
    + cbn [map BranchSetSpec.keep]. now rewrite headOfLine_head.
    + apply lacks_append; [assumption|].
      unfold lacks. cbn [list_ascii_of_string]. intros [E|Hin];
        [discriminate|].
      revert Hin. apply (lacks_append JS.NL headsPrefix name); [|assumption].
      unfold lacks. cbn. intros Hp.
      repeat (destruct Hp as [Hp|Hp]; [discriminate|]). exact Hp.
  - rewrite !append_assoc. reflexivity.
Qed.

Lemma parse_headListing_witness :
  parseRemoteBranchNames
    (headListing [("0a1b", "main"); ("2c3d", "feat/x"); ("4e5f", "")])
  = Returned ["main"; "feat/x"; ""].
Proof.
  apply (parse_headListing
           [("0a1b", "main"); ("2c3d", "feat/x"); ("4e5f", "")]).
  repeat constructor; unfold lacks; cbn; intros H;
    repeat (destruct H as [H|H]; [discriminate|]); exact H.
Defined.

(** X6. A line whose second tab-separated field is missing, or does not
    start with refs/heads/, adds nothing: the listing parses as it does
    without that line. *)
Theorem other_lines_are_ignored (line a b : string) :
  lacks JS.NL line ->
  (forall field,
      nth_error (JS.split JS.TAB line) 1 = Some field ->
      JS.startsWith field headsPrefix = false) ->
  parseRemoteBranchNames (line ++ String JS.NL b)
  = parseRemoteBranchNames b /\
  parseRemoteBranchNames (a ++ String JS.NL (line ++ String JS.NL b))
  = parseRemoteBranchNames (a ++ String JS.NL b).
Proof.
  intros Hnl Hfield.
  assert (Hline : BranchSetSpec.branchSet line = []).
  { unfold BranchSetSpec.branchSet, BranchSetSpec.lines.
    rewrite (split_lacks _ _ Hnl). cbn [map BranchSetSpec.keep].
    unfold BranchSetSpec.headOfLine. rewrite secondField_nth.
    destruct (nth_error (JS.split JS.TAB line) 1) as [field|] eqn:E;
      [|reflexivity].
    rewrite stripPrefix_prefix.
    change (String.prefix headsPrefix field)
      with (JS.startsWith field headsPrefix).
    now rewrite (Hfield field eq_refl). }
  rewrite !parse_returns, !branchSet_app, Hline. split; reflexivity.
Qed.

Lemma other_lines_are_ignored_witness :
  parseRemoteBranchNames
    (("9f8e" ++ String JS.TAB "refs/tags/v1")
       ++ String JS.NL (headListing [("0a1b", "main")]))
  = parseRemoteBranchNames (headListing [("0a1b", "main")]).
Proof.
  apply (other_lines_are_ignored
           ("9f8e" ++ String JS.TAB "refs/tags/v1") ""
           (headListing [("0a1b", "main")])).
  - unfold lacks. cbn. intros H.
    repeat (destruct H as [H|H]; [discriminate|]). exact H.
  - intros field H. cbn in H. injection H as <-. reflexivity.
Defined.

Lemma lacks_field (c sep : ascii) (s field : string) :
  lacks c s -> In field (JS.split sep s) -> lacks c field.
Proof.
  unfold lacks. intros Hs Hin Hc. apply Hs.
  now destruct (split_fields sep s field Hin c Hc).
Qed.

(** X7. A text without any tab, such as an error message, has no branches. *)
Theorem listing_without_tabs_has_no_branches (text : string) :
  lacks JS.TAB text -> parseRemoteBranchNames text = Returned [].
Proof.
  intros Htab. rewrite parse_returns. f_equal.
  unfold BranchSetSpec.branchSet, BranchSetSpec.lines.
  assert (H : forall line, In line (JS.split JS.NL text) ->
                           BranchSetSpec.headOfLine line = None).
  { intros line Hin. unfold BranchSetSpec.headOfLine, BranchSetSpec.secondField.
    now rewrite (split_lacks _ line (lacks_field _ _ _ _ Htab Hin)). }
  induction (JS.split JS.NL text) as [|line ls IH]; [reflexivity|].
  cbn [map BranchSetSpec.keep]. rewrite (H line (or_introl eq_refl)).
  apply IH. intros l Hl. apply H. now right.
Qed.

Lemma listing_without_tabs_has_no_branches_witness :
  parseRemoteBranchNames
    ("fatal: repository not found" ++ String JS.NL "refs/heads/main")
  = Returned [].
Proof.
  apply listing_without_tabs_has_no_branches.
  unfold lacks. cbn. intros H.
  repeat (destruct H as [H|H]; [discriminate|]). exact H.
Defined.

(** ** The URL check *)

Lemma test_nil (s : string) : Regex.test [] s = true <-> s = "".
Proof. destruct s; cbn; split; congruence. Qed.

Lemma test_lits (p : string) (re : list Regex.Atom) (s : string) :
  Regex.test (Regex.lits p ++ re) s = true <->
  exists r, s = p ++ r /\ Regex.test re r = true.
Proof.
  revert s. induction p as [|a p IH]; intros s; cbn [Regex.lits app append].
  - split; [intros H; now exists s | intros [r [-> H]]; exact H].
  - cbn [Regex.test]. destruct s as [|b s].
    + split; [discriminate | intros [r [H _]]; discriminate].
    + rewrite andb_true_iff, Ascii.eqb_eq, IH. split.
      * intros [-> [r [-> H]]]. now exists r.
      * intros [r [E H]]. injection E as -> ->. split; [reflexivity|].
        now exists r.
Qed.

Lemma test_dot (re : list Regex.Atom) (s : string) :
  Regex.test (Regex.Dot :: re) s = true <->
  exists c r, s = String c r /\ Regex.lineTerminator c = false /\
              Regex.test re r = true.
Proof.
  cbn [Regex.test]. destruct s as [|c s].
  - split; [discriminate | intros [c [r [H _]]]; discriminate].
  - rewrite andb_true_iff, negb_true_iff. split.
    + intros [Hc H]. now exists c, s.
    + intros [c' [r [E [Hc H]]]]. injection E as -> ->. now split.
Qed.

Lemma oneLine_nil : oneLine "".
Proof. intros c []. Qed.

Lemma oneLine_cons (c : ascii) (s : string) :
  oneLine (String c s) <-> Regex.lineTerminator c = false /\ oneLine s.
Proof.
  unfold oneLine. cbn [list_ascii_of_string In]. split.
  - intros H. split; [apply H; now left | intros x Hx; apply H; now right].
  - intros [Hc H] x [<-|Hx]; [assumption | now apply H].
Qed.

Lemma skipAny_spec (k : string -> bool) (s : string) :
  Regex.skipAny k s = true <->
  exists a r, s = a ++ r /\ oneLine a /\ k r = true.
Proof.
  induction s as [|c s IH]; cbn [Regex.skipAny].
  - rewrite orb_false_r. split.
    + intros H. exists "", "". repeat split; [apply oneLine_nil | exact H].
    + intros [a [r [E [_ H]]]]. destruct a; [|discriminate].
      cbn in E. now subst r.
  - rewrite orb_true_iff, andb_true_iff, negb_true_iff, IH. split.
    + intros [H|[Hc [a [r [-> [Ha H]]]]]].
      * exists "", (String c s). repeat split; [apply oneLine_nil | exact H].
      * exists (String c a), r. repeat split; [|exact H].
        now apply oneLine_cons.
    + intros [[|x a] [r [E [Ha H]]]].
      * left. cbn in E. now subst r.
      * right. cbn in E. injection E as -> ->.
        apply oneLine_cons in Ha. destruct Ha as [Hx Ha].
        split; [assumption|]. now exists a, r.
Qed.

(** A pattern of the shape of the two of line 147. *)
Lemma test_url_shape (host path value : string) :
  Regex.test
    (Regex.lits host ++ [Regex.Dot] ++ Regex.lits path ++ [Regex.DotStar]
       ++ Regex.lits "/" ++ [Regex.DotStar] ++ Regex.lits ".git")%list
    value = true <->
  exists c owner repo,
    Regex.lineTerminator c = false /\ oneLine owner /\ oneLine repo /\
    value = host ++ String c (path ++ owner ++ "/" ++ repo ++ ".git").
Proof.
  rewrite test_lits. split.
  - intros [r1 [-> H]]. cbn [app] in H. apply test_dot in H.
    destruct H as [c [r2 [-> [Hc H]]]]. apply test_lits in H.
    destruct H as [r3 [-> H]]. cbn [app Regex.test] in H.
    apply skipAny_spec in H. destruct H as [owner [r4 [-> [Ho H]]]].
    apply (test_lits "/" _ r4) in H. destruct H as [r5 [-> H]].
    cbn [app Regex.test] in H.
    apply skipAny_spec in H. destruct H as [repo [r6 [-> [Hr H]]]].
    apply (test_lits ".git" [] r6) in H. destruct H as [r7 [-> H]].
    apply test_nil in H. subst r7.
    exists c, owner, repo. repeat split; assumption.
  - intros [c [owner [repo [Hc [Ho [Hr ->]]]]]].
    eexists. split; [reflexivity|]. cbn [app]. apply test_dot.
    eexists _, _. split; [reflexivity|]. split; [assumption|].
    apply test_lits. eexists. split; [reflexivity|]. cbn [app Regex.test].
    apply skipAny_spec. exists owner. eexists. split; [reflexivity|].
    split; [assumption|].
    apply (test_lits "/"). eexists. split; [reflexivity|].
    cbn [app Regex.test].
    apply skipAny_spec. exists repo. eexists. split; [reflexivity|].
    split; [assumption|].
    apply (test_lits ".git" []). exists "". split; [reflexivity|].
    reflexivity.
Qed.


Lemma oneLine_append (a b : string) :
  oneLine (a ++ b) <-> oneLine a /\ oneLine b.
Proof.
  induction a as [|c a IH]; cbn [append].
  - split; [intros H; split; [apply oneLine_nil | exact H] | tauto].
  - rewrite !oneLine_cons, IH. tauto.
Qed.

Lemma oneLine_literal (s : string) :
  forallb (fun c => negb (Regex.lineTerminator c)) (list_ascii_of_string s)
  = true ->
  oneLine s.
Proof.
  intros H c Hc. rewrite forallb_forall in H.
  apply negb_true_iff. now apply H.
Qed.

Lemma url_shape_oneLine (host path value : string) :
  oneLine host -> oneLine path ->
  Regex.test
    (Regex.lits host ++ [Regex.Dot] ++ Regex.lits path ++ [Regex.DotStar]
       ++ Regex.lits "/" ++ [Regex.DotStar] ++ Regex.lits ".git")%list
    value = true ->
  oneLine value.
Proof.
  intros Hhost Hpath H. apply test_url_shape in H.
  destruct H as [c [owner [repo [Hc [Ho [Hr ->]]]]]].
  apply oneLine_append. split; [assumption|].
  apply oneLine_cons. split; [assumption|].
  repeat (apply oneLine_append; split); try assumption;
    now apply oneLine_literal.
Qed.

(** X9. A value with a newline or a carriage return anywhere in it is
    rejected, with the one message of the check. *)
Theorem validate_rejects_line_breaks (value : string) :
  ~ oneLine value ->
  validate value = Invalid "Please enter a valid GitHub URL (SSH or HTTPS).".
Proof.
  intros Hbreak. unfold validate.
  destruct (Regex.test sshPattern value) eqn:Essh.
  - elim Hbreak.
    apply (url_shape_oneLine "git@github" "com:");
      [now apply oneLine_literal | now apply oneLine_literal | exact Essh].
  - destruct (Regex.test httpsPattern value) eqn:Ehttps; [|reflexivity].
    elim Hbreak.
    apply (url_shape_oneLine "https://github" "com/");
      [now apply oneLine_literal | now apply oneLine_literal | exact Ehttps].
Qed.

Lemma validate_rejects_line_breaks_witness :
  validate ("git@github.com:o/r.git" ++ String JS.NL "")
  = Invalid "Please enter a valid GitHub URL (SSH or HTTPS).".
Proof.
  apply validate_rejects_line_breaks.
  intros H. specialize (H JS.NL). cbn in H.
  assert (E : true = false) by (apply H; tauto). discriminate E.
Defined.

(** ** The calls of the two operations *)

Lemma calls_app (xs ys : list Event) :
  calls (xs ++ ys) = (calls xs ++ calls ys)%list.
Proof. apply filter_app. Qed.

Lemma Prefix_refl {A : Type} (l : list A) : Prefix l l.
Proof. exists []. now rewrite app_nil_r. Qed.

Lemma Prefix_nil {A : Type} (l : list A) : Prefix [] l.
Proof. now exists l. Qed.

Lemma Prefix_app_r {A : Type} (l full more : list A) :
  Prefix l full -> Prefix l (full ++ more).
Proof. intros [rest ->]. exists (rest ++ more)%list. now rewrite app_assoc. Qed.

Lemma Prefix_app {A : Type} (l a b : list A) :
  Prefix a b -> Prefix (l ++ a) (l ++ b).
Proof. intros [rest ->]. exists rest. now rewrite app_assoc. Qed.

Section Scripted.

Context {W : Type} {host : Host W}.

Lemma Follows_weaken {A : Type} (c : M W A) (P Q : list Event -> Prop) :
  Follows c P -> (forall script, P script -> Q script) -> Follows c Q.
Proof.
  intros H HPQ s. destruct (H s) as [evs [script [E [HP [Hpre Hret]]]]].
  exists evs, script. auto.
Qed.

Lemma Follows_ret {A : Type} (a : A) : Follows (ret a : M W A) (eq []).
Proof.
  intros s. exists [], []. cbn. rewrite app_nil_r.
  repeat split. apply Prefix_refl.
Qed.

Lemma Follows_logger (level : Level) (m : Message) :
  Follows (W:=W) (logger level m) (eq []).
Proof.
  intros s. exists [Log level m], []. repeat split. apply Prefix_refl.
Qed.

Lemma Follows_mkdir (path : string) :
  Follows (fs_mkdirSync path) (eq [FsMkdir path]).
Proof.
  intros s. exists [FsMkdir path], [FsMkdir path]. unfold fs_mkdirSync.
  destruct (mkdirSync path (world s)) as [r w].
  repeat split. apply Prefix_refl.
Qed.

Lemma Follows_bind {A B : Type} (a0 : A) (c : M W A) (k : A -> M W B)
      (P1 P2 : list Event -> Prop) :
  Follows c P1 -> (forall a, Follows (k a) P2) ->
  Follows (bind c k)
          (fun script => exists s1 s2,
               P1 s1 /\ P2 s2 /\ script = (s1 ++ s2)%list).
Proof.
  intros Hc Hk s. unfold bind.
  destruct (Hc s) as [evs1 [sc1 [E1 [HP1 [Hpre1 Hret1]]]]].
  destruct (c s) as [[a|e] s1]; cbn [fst snd] in *.
  - destruct (Hk a s1) as [evs2 [sc2 [E2 [HP2 [Hpre2 Hret2]]]]].
    exists (evs1 ++ evs2)%list, (sc1 ++ sc2)%list.
    rewrite E2, E1, app_assoc, calls_app, (Hret1 a eq_refl).
    split; [reflexivity|]. split; [now exists sc1, sc2|].
    split; [now apply Prefix_app|].
    intros b Hb. now rewrite (Hret2 b Hb).
  - destruct (Hk a0 s) as [_ [sc2 [_ [HP2 _]]]].
    exists evs1, (sc1 ++ sc2)%list. split; [assumption|].
    split; [now exists sc1, sc2|].
    split; [now apply Prefix_app_r | discriminate].
Qed.

Lemma Follows_git {B : Type} (folderPath : string) (command : GitCommand)
      (k : string -> M W B) (P : list Event -> Prop) :
  (forall r, Follows (k r) P) ->
  Follows (git_cwd folderPath ;; (r <- git_run command ;; k r))
          (fun script => exists rest,
               P rest /\ script = Git folderPath command :: rest).
Proof.
  intros Hk s. unfold bind, git_cwd, git_run. cbn [world gitCwd trace].
  destruct (git_exec folderPath command (world s)) as [[r|e] w].
  - destruct (Hk r (mkState w folderPath
                      (trace s ++ [Git folderPath command])))
      as [evs [sc [E [HP [Hpre Hret]]]]].
    exists (Git folderPath command :: evs), (Git folderPath command :: sc).
    rewrite E. cbn [trace]. rewrite <- app_assoc.
    split; [reflexivity|]. split; [now exists sc|].
    split; [apply (Prefix_app [Git folderPath command]); assumption|].
    intros b Hb. cbn [calls filter isCall]. f_equal. now apply (Hret b).
  - destruct (Hk "" s) as [_ [sc [_ [HP _]]]].
    exists [Git folderPath command], (Git folderPath command :: sc).
    split; [reflexivity|]. split; [now exists sc|].
    split; [apply (Prefix_app [Git folderPath command]), Prefix_nil|].
    discriminate.
Qed.

Lemma Follows_git_last (folderPath : string) (command : GitCommand) :
  Follows (git_cwd folderPath ;; git_run command)
          (eq [Git folderPath command]).
Proof.
  intros s. unfold bind, git_cwd, git_run. cbn [world gitCwd trace].
  destruct (git_exec folderPath command (world s)) as [[r|e] w];
    exists [Git folderPath command], [Git folderPath command];
    repeat split; apply Prefix_refl.
Qed.

Lemma Follows_configureOrigin (folderPath repoUrl : string) :
  Follows (configureOrigin folderPath repoUrl)
          (fun script => exists repoint,
               script = originSteps folderPath repoUrl repoint).
Proof.
  intros s. unfold configureOrigin, bind, git_cwd, git_run, logger, ret.
  cbn [world gitCwd trace record].
  destruct (git_exec folderPath (Raw ["remote"; "show"]) (world s))
    as [[remotes|e] w].
  - exists (if JS.includes remotes "origin"
            then [Git folderPath (Raw ["remote"; "show"]);
                  Log info RemoteOriginExists;
                  Git folderPath
                      (Raw ["remote"; "set-url"; "origin"; repoUrl])]
            else [Git folderPath (Raw ["remote"; "show"]);
                  Log info AddingRemoteOrigin;
                  Git folderPath
                      (Raw ["remote"; "add"; "origin"; repoUrl])]),
      (originSteps folderPath repoUrl (JS.includes remotes "origin")).
    destruct (JS.includes remotes "origin");
      cbn [world gitCwd trace record];
      destruct (git_exec folderPath _ w) as [[r|e] w'];
      cbn [snd trace]; rewrite <- !app_assoc;
      (split; [reflexivity|]); (split; [eexists; reflexivity|]);
      (split; [apply Prefix_refl | reflexivity]).
  - exists [Git folderPath (Raw ["remote"; "show"])],
      (originSteps folderPath repoUrl false).
    split; [reflexivity|]. split; [now exists false|].
    split; [now eexists | discriminate].
Qed.

End Scripted.

Section Calls.

Context {W : Type} {host : Host W}.

Ltac follow :=
  repeat first
    [ apply Follows_logger
    | apply Follows_ret
    | apply Follows_mkdir
    | apply Follows_configureOrigin
    | apply Follows_git_last
    | eapply Follows_git; intros ?
    | eapply (Follows_bind tt); [|intros ?] ].

Ltac unpack :=
  repeat match goal with
         | H : exists _, _ |- _ => destruct H
         | H : _ /\ _ |- _ => destruct H
         end;
  subst.

(** Lines 40-66, the part of [cloneBranchToFolder] after the existence
    check. *)
Lemma materialise_follows (repoUrl branchName target : string) :
  Follows
    (fs_mkdirSync target ;;
     logger info (CreatedSubfolder target) ;;
     logger info (InitializingSubfolder target) ;;
     git_cwd target ;; git_run Init ;;
     configureOrigin target repoUrl ;;
     git_cwd target ;; git_run Fetch ;;
     logger info (CheckingOut branchName target) ;;
     git_cwd target ;; git_run (Checkout [branchName]) ;;
     logger info (CheckedOut branchName target))
    (fun script => exists repoint,
         script = materialiseSteps repoUrl branchName target repoint).
Proof.
  eapply Follows_weaken; [follow|].
  cbv beta. intros script H. unpack.
  match goal with r : bool |- _ => exists r end. reflexivity.
Qed.

Lemma listRemoteRefs_follows (repoUrl repoFolderPath : string)
      (s : State W) :
  exists evs repoint,
    trace (snd (listRemoteRefs repoUrl repoFolderPath s))
    = (trace s ++ FsExists repoFolderPath :: evs)%list /\
    Forall quiet evs /\
    let script :=
      setupSteps repoUrl repoFolderPath
                 (existsSync repoFolderPath (world s)) repoint in
    Prefix (calls evs) script /\
    (forall text,
        fst (listRemoteRefs repoUrl repoFolderPath s) = Returned text ->
        calls evs = script).
Proof.
  set (found := existsSync repoFolderPath (world s)).
  assert (Hrest : Follows
    ((if negb found
      then logger info (FolderMissing repoFolderPath) ;;
           fs_mkdirSync repoFolderPath
      else ret tt) ;;
     logger info (InitializingFolder repoFolderPath) ;;
     git_cwd repoFolderPath ;; git_run Init ;;
     configureOrigin repoFolderPath repoUrl ;;
     logger info FetchingBranchInformation ;;
     git_cwd repoFolderPath ;;
     git_run (Raw ["ls-remote"; "--refs"; repoUrl]))
    (fun script => exists repoint,
         script = setupSteps repoUrl repoFolderPath found repoint)).
  { eapply Follows_weaken.
    - eapply (Follows_bind tt); [|intros ?; follow].
      instantiate (1 := eq (if found then [] else [FsMkdir repoFolderPath])).
      destruct found; cbn [negb];
        (eapply Follows_weaken; [follow|]); cbv beta; intros script H;
        unpack; reflexivity.
    - cbv beta. intros script H. unpack.
      match goal with r : bool |- _ => exists r end. reflexivity. }
  assert (Hquiet : Quiet
    ((if negb found
      then logger info (FolderMissing repoFolderPath) ;;
           fs_mkdirSync repoFolderPath
      else ret tt) ;;
     logger info (InitializingFolder repoFolderPath) ;;
     git_cwd repoFolderPath ;; git_run Init ;;
     configureOrigin repoFolderPath repoUrl ;;
     logger info FetchingBranchInformation ;;
     git_cwd repoFolderPath ;;
     git_run (Raw ["ls-remote"; "--refs"; repoUrl]))).
  { destruct found; cbn [negb];
      repeat first
        [ apply Quiet_git_cwd | apply Quiet_git_run | apply Quiet_mkdir
        | apply Quiet_ret | apply Quiet_configureOrigin
        | apply Quiet_logger; repeat split
        | apply Quiet_bind; [|intros ?] ]. }
  unfold listRemoteRefs. unfold bind at 1. unfold fs_existsSync at 1.
  fold found.
  destruct (Hrest (record (FsExists repoFolderPath) s))
    as [evs [script [E [[repoint ->] [Hpre Hret]]]]].
  destruct (Hquiet (record (FsExists repoFolderPath) s)) as [evs' [E' Q]].
  rewrite E in E'. apply app_inv_head in E'. subst evs'.
  exists evs, repoint. split; [|split; [assumption|split; assumption]].
  rewrite E. cbn [record trace]. now rewrite <- app_assoc.
Qed.

End Calls.

Section Operations.

Context {W : Type} {host : Host W}.

Lemma materialise_ends (repoUrl branchName target : string) :
  EndsWith (Log info (CheckedOut branchName target))
    (fs_mkdirSync target ;;
     logger info (CreatedSubfolder target) ;;
     logger info (InitializingSubfolder target) ;;
     git_cwd target ;; git_run Init ;;
     configureOrigin target repoUrl ;;
     git_cwd target ;; git_run Fetch ;;
     logger info (CheckingOut branchName target) ;;
     git_cwd target ;; git_run (Checkout [branchName]) ;;
     logger info (CheckedOut branchName target)).
Proof.
  repeat (apply EndsWith_bind; [|intros ?]);
    auto using Quiet_git_cwd, Quiet_git_run, Quiet_mkdir,
               Quiet_configureOrigin, EndsWith_logger;
    apply Quiet_logger; repeat split.
Qed.

Lemma calls_quiet_end (evs : list Event) (final : Event) :
  isCall final = false -> calls (evs ++ [final]) = calls evs.
Proof. intros H. rewrite calls_app. cbn. rewrite H. apply app_nil_r. Qed.

Lemma terminals_quiet_end (evs : list Event) (final : Event) (t : Terminal) :
  Forall quiet evs -> terminalOf final = Some t ->
  terminals (evs ++ [final]) = [t].
Proof.
  intros Q H. destruct (quiet_observations evs Q) as [_ [Qt _]].
  unfold terminals in *. rewrite collect_app, Qt. cbn. now rewrite H.
Qed.

Lemma git_in_script (repoUrl branchName target : string) (repoint : bool)
      (cwd : string) (command : GitCommand) :
  In (Git cwd command) (materialiseSteps repoUrl branchName target repoint) ->
  cwd = target.
Proof.
  unfold materialiseSteps, originSteps. cbn [app In].
  intros H. repeat (destruct H as [H|H]; [congruence|]). destruct H.
Qed.

Lemma git_in_calls (evs script : list Event) (cwd : string)
      (command : GitCommand) :
  Prefix (calls evs) script -> In (Git cwd command) evs ->
  In (Git cwd command) script.
Proof.
  intros [rest ->] H. apply in_or_app. left. apply filter_In. now split.
Qed.

(** The skip of lines 34-37, as an equation. *)
Lemma cloneBranchToFolder_skip (repoUrl branchName parent : string)
      (s : State W) :
  existsSync (branchFolder parent branchName) (world s) = true ->
  cloneBranchToFolder repoUrl branchName parent s =
  (Returned tt,
   mkState (world s) (gitCwd s)
           (trace s ++ skipEvents (branchFolder parent branchName))).
Proof.
  intros Hex. unfold cloneBranchToFolder, tryCatch, cloneBranchToFolder_try.
  fold (branchFolder parent branchName).
  unfold bind, fs_existsSync. rewrite Hex. unfold logger, record, skipEvents.
  cbn. now rewrite <- app_assoc.
Qed.

(** X11. The directory and git calls of one materialisation are a prefix of:
    mkdir of the target folder, init, remote show, remote set-url or add
    of origin, fetch, checkout of the branch; every git command runs in
    the target folder; a materialisation that ends done has made all six
    calls, and one that is skipped has made none. *)
Theorem materialisation_calls (repoUrl branchName parent : string)
        (s : State W) :
  let target := branchFolder parent branchName in
  exists evs s' repoint,
    cloneBranchToFolder repoUrl branchName parent s = (Returned tt, s') /\
    trace s' = (trace s ++ evs)%list /\
    Prefix (calls evs) (materialiseSteps repoUrl branchName target repoint) /\
    (terminals evs = [Done branchName target] ->
     calls evs = materialiseSteps repoUrl branchName target repoint) /\
    (terminals evs = [Skipped target] -> calls evs = []) /\
    (forall cwd command, In (Git cwd command) evs -> cwd = target).
Proof.
  intros target.
  assert (Hgoal : exists evs s' repoint,
    cloneBranchToFolder repoUrl branchName parent s = (Returned tt, s') /\
    trace s' = (trace s ++ evs)%list /\
    Prefix (calls evs) (materialiseSteps repoUrl branchName target repoint) /\
    (terminals evs = [Done branchName target] ->
     calls evs = materialiseSteps repoUrl branchName target repoint) /\
    (terminals evs = [Skipped target] -> calls evs = [])).
  { destruct (existsSync target (world s)) eqn:Hex.
    - rewrite (cloneBranchToFolder_skip _ _ _ _ Hex). fold target.
      exists (skipEvents target). eexists. exists false.
      split; [reflexivity|]. split; [reflexivity|].
      split; [apply Prefix_nil|]. split; [discriminate | reflexivity].
    - unfold cloneBranchToFolder, tryCatch, cloneBranchToFolder_try.
      fold (branchFolder parent branchName). fold target.
      unfold bind at 1. unfold fs_existsSync at 1. rewrite Hex.
      set (s0 := record (FsExists target) s).
      destruct (materialise_follows repoUrl branchName target s0)
        as [evs [script [E [[repoint ->] [Hpre Hret]]]]].
      destruct (materialise_ends repoUrl branchName target s0)
        as [evs' [s' [Q [[e [Hrun E']]|[Hrun E']]]]];
        rewrite Hrun in *; cbn [fst snd] in *.
      + rewrite E in E'. apply app_inv_head in E'. subst evs'.
        exists (FsExists target
                  :: evs ++ [Log error (ErrorCloningBranch branchName e)])%list.
        eexists. exists repoint. split; [reflexivity|]. split.
        { cbn [logger record snd trace]. rewrite E. subst s0.
          cbn [record trace]. now rewrite <- !app_assoc. }
        assert (Ht : terminals
                       (FsExists target :: evs ++
                        [Log error (ErrorCloningBranch branchName e)])
                     = [Failed branchName e]).
        { change (terminals (evs ++
                    [Log error (ErrorCloningBranch branchName e)])
                  = [Failed branchName e]).
          now apply terminals_quiet_end. }
        rewrite Ht. cbn [calls filter isCall]. fold (calls (evs ++
          [Log error (ErrorCloningBranch branchName e)])).
        rewrite calls_quiet_end by reflexivity.
        split; [assumption|]. split; discriminate.
      + exists (FsExists target :: evs)%list. eexists. exists repoint.
        split; [reflexivity|]. split.
        { rewrite E. subst s0. cbn [record trace]. now rewrite <- !app_assoc. }
        cbn [calls filter isCall]. fold (calls evs).
        rewrite (Hret tt eq_refl).
        split; [apply Prefix_refl|]. split; [reflexivity|].
        rewrite E in E'. apply app_inv_head in E'. subst evs.
        change (terminals (evs' ++
                  [Log info (CheckedOut branchName target)])
                = [Skipped target] ->
                materialiseSteps repoUrl branchName target repoint = []).
        rewrite (terminals_quiet_end evs'
                   (Log info (CheckedOut branchName target))
                   (Done branchName target) Q eq_refl).
        discriminate. }
  destruct Hgoal as [evs [s' [repoint [Hrun [E [Hpre [Hdone Hskip]]]]]]].
  exists evs, s', repoint. repeat split; try assumption.
  intros cwd command Hin.
  apply (git_in_script repoUrl branchName target repoint cwd command).
  now apply (git_in_calls evs).
Qed.

Lemma git_in_setup (repoUrl repoFolderPath : string) (found repoint : bool)
      (cwd : string) (command : GitCommand) :
  In (Git cwd command) (setupSteps repoUrl repoFolderPath found repoint) ->
  cwd = repoFolderPath.
Proof.
  unfold setupSteps, originSteps. destruct found; cbn [app In];
    intros H; repeat (destruct H as [H|H]; [congruence|]); destruct H.
Qed.

(** X10. The git calls of the remote configuration (lines 48-57 and 88-97) are
    remote show and then one of remote set-url and remote add, never both,
    in the folder given; when remote show throws, neither is called. *)
Theorem origin_configuration_calls (folderPath repoUrl : string)
        (s : State W) :
  exists evs repoint,
    trace (snd (configureOrigin folderPath repoUrl s))
    = (trace s ++ evs)%list /\
    Prefix (calls evs) (originSteps folderPath repoUrl repoint) /\
    (fst (configureOrigin folderPath repoUrl s) = Returned tt ->
     calls evs = originSteps folderPath repoUrl repoint) /\
    (forall e w,
        git_exec folderPath (Raw ["remote"; "show"]) (world s) = (Threw e, w) ->
        calls evs = [Git folderPath (Raw ["remote"; "show"])] /\
        fst (configureOrigin folderPath repoUrl s) = Threw e).
Proof.
  destruct (Follows_configureOrigin folderPath repoUrl s)
    as [evs [script [E [[repoint ->] [Hpre Hret]]]]].
  exists evs, repoint. split; [assumption|]. split; [assumption|].
  split; [apply Hret|].
  intros e w Hshow. revert E.
  unfold configureOrigin, bind, git_cwd, git_run.
  cbn [world gitCwd trace]. rewrite Hshow. cbn [snd fst trace].
  intros E. apply app_inv_head in E. subst evs. now split.
Qed.

(** X12. The directory and git calls of the set-up of [cloneRepository] are a
    prefix of: mkdir of the repository folder if it was missing (and not
    otherwise), init, remote show, remote set-url or add of origin,
    ls-remote --refs of the URL, all in the repository folder; when the
    listing returns, all of them have been made. The set-up checks the
    existence of the repository folder and of nothing else. *)
Theorem setup_calls (repoUrl repoFolderPath : string) (s : State W) :
  exists evs repoint,
    trace (snd (listRemoteRefs repoUrl repoFolderPath s))
    = (trace s ++ FsExists repoFolderPath :: evs)%list /\
    probes evs = [] /\
    let script :=
      setupSteps repoUrl repoFolderPath
                 (existsSync repoFolderPath (world s)) repoint in
    Prefix (calls evs) script /\
    (forall text,
        fst (listRemoteRefs repoUrl repoFolderPath s) = Returned text ->
        calls evs = script) /\
    (forall cwd command, In (Git cwd command) evs -> cwd = repoFolderPath).
Proof.
  destruct (listRemoteRefs_follows repoUrl repoFolderPath s)
    as [evs [repoint [E [Q [Hpre Hret]]]]].
  exists evs, repoint. split; [assumption|].
  split; [apply (quiet_observations evs Q)|].
  cbv zeta. split; [assumption|]. split; [assumption|].
  intros cwd command Hin.
  apply (git_in_setup repoUrl repoFolderPath
           (existsSync repoFolderPath (world s)) repoint cwd command).
  now apply (git_in_calls evs).
Qed.

(** X13. When a step of the set-up throws, [cloneRepository] logs the error
    and returns, and no branch is attempted: after the check of the
    repository folder there is no existence check and no terminal state
    of a materialisation. *)
Theorem setup_failure_attempts_nothing
        (repoUrl parent repoName : string) (cloneAllBranches : bool)
        (e : Error) (s s1 : State W) :
  listRemoteRefs repoUrl (path_join parent repoName) s = (Threw e, s1) ->
  cloneRepository repoUrl parent repoName cloneAllBranches s =
  (Returned tt, record (Log error (ErrorCloningRepository e)) s1) /\
  exists evs,
    trace (record (Log error (ErrorCloningRepository e)) s1)
    = (trace s ++ FsExists (path_join parent repoName) :: evs)%list /\
    probes evs = [] /\ terminals evs = [].
Proof.
  intros Hlist. split.
  - unfold cloneRepository, tryCatch, cloneRepository_try.
    unfold bind at 1. now rewrite Hlist.
  - destruct (listRemoteRefs_follows repoUrl (path_join parent repoName) s)
      as [evs [_ [E [Q _]]]].
    rewrite Hlist in E. cbn [snd] in E.
    exists (evs ++ [Log error (ErrorCloningRepository e)])%list.
    cbn [record trace]. rewrite E, <- app_assoc. split; [reflexivity|].
    destruct (quiet_observations evs Q) as [Qp [Qt _]].
    unfold probes, terminals in *. rewrite !collect_app, Qp, Qt.
    split; reflexivity.
Qed.

End Operations.

(** ** Folders that stay *)

Lemma mem_app_r (x : string) (xs : list string) :
  Sim.mem x (xs ++ [x]) = true.
Proof.
  unfold Sim.mem. rewrite existsb_app. cbn. rewrite String.eqb_refl.
  now rewrite orb_true_r.
Qed.

Lemma exec_dirs (cwd : string) (command : GitCommand) (w : Sim.World) :
  Sim.dirs (snd (Sim.exec cwd command w)) = Sim.dirs w.
Proof.
  unfold Sim.exec. destruct (negb (Sim.mem cwd (Sim.dirs w)));
    [reflexivity|].
  destruct command; destruct (Sim.lookup cwd (Sim.repos w)); cbn;
    try reflexivity;
    repeat match goal with
           | |- context [match ?x with _ => _ end] =>
               destruct x; cbn; try reflexivity
           end.
Qed.

Lemma Sim_folders_persist : FoldersPersist (host := Sim.host).
Proof.
  split.
  - intros path w w' H. cbn in *. unfold Sim.mkdir in H.
    injection H as <-. cbn.
    destruct (Sim.mem path (Sim.dirs w)) eqn:E; [assumption|].
    apply mem_app_r.
  - intros path cwd command w H. cbn in *. now rewrite exec_dirs.
Qed.

Section Retry.

Context {W : Type} {host : Host W}.

Lemma Keeps_ret {A : Type} (path : string) (a : A) :
  Keeps path (ret a : M W A).
Proof. intros s H. exact H. Qed.

Lemma Keeps_logger (path : string) (level : Level) (m : Message) :
  Keeps (W:=W) path (logger level m).
Proof. intros s H. exact H. Qed.

Lemma Keeps_git_cwd (path folderPath : string) :
  Keeps (W:=W) path (git_cwd folderPath).
Proof. intros s H. exact H. Qed.

Lemma Keeps_git_run (path : string) (command : GitCommand) :
  FoldersPersist -> Keeps path (git_run command).
Proof.
  intros [_ Hgit] s H. unfold git_run.
  specialize (Hgit path (gitCwd s) command (world s) H).
  now destruct (git_exec (gitCwd s) command (world s)).
Qed.

Lemma Keeps_bind {A B : Type} (path : string) (c : M W A) (k : A -> M W B) :
  Keeps path c -> (forall a, Keeps path (k a)) -> Keeps path (bind c k).
Proof.
  intros Hc Hk s H. unfold bind. specialize (Hc s H).
  destruct (c s) as [[a|e] s1]; [now apply Hk | exact Hc].
Qed.

Lemma Keeps_configureOrigin (path folderPath repoUrl : string) :
  FoldersPersist -> Keeps path (configureOrigin folderPath repoUrl).
Proof.
  intros Hp. unfold configureOrigin.
  apply Keeps_bind;
    [auto using Keeps_bind, Keeps_git_cwd, Keeps_git_run|].
  intros remotes. destruct (JS.includes remotes "origin");
    repeat (apply Keeps_bind; [|intros ?]);
    auto using Keeps_git_cwd, Keeps_git_run, Keeps_ret, Keeps_logger.
Qed.

(** X14. A materialisation that got as far as making its folder blocks every
    later one of the same branch, whether it ended done or failed: where
    folders stay, the folder exists afterwards, and the next run on the
    same branch is skipped, with no call at all. *)
Theorem failed_materialisation_blocks_retry
        (repoUrl branchName parent : string) (s : State W) :
  FoldersPersist ->
  let target := branchFolder parent branchName in
  let s1 := snd (cloneBranchToFolder repoUrl branchName parent s) in
  (existsSync target (world s) = true \/
   exists w', mkdirSync target (world s) = (Returned tt, w')) ->
  existsSync target (world s1) = true /\
  cloneBranchToFolder repoUrl branchName parent s1 =
  (Returned tt,
   mkState (world s1) (gitCwd s1) (trace s1 ++ skipEvents target)).
Proof.
  intros Hp target s1 Hmade.
  assert (Hthere : existsSync target (world s1) = true).
  { subst s1. destruct (existsSync target (world s)) eqn:Hex.
    - now rewrite (cloneBranchToFolder_skip _ _ _ _ Hex).
    - destruct Hmade as [Hmade|[w' Hmk]]; [discriminate|].
      set (rest :=
             logger info (CreatedSubfolder target) ;;
             logger info (InitializingSubfolder target) ;;
             git_cwd target ;; git_run Init ;;
             configureOrigin target repoUrl ;;
             git_cwd target ;; git_run Fetch ;;
             logger info (CheckingOut branchName target) ;;
             git_cwd target ;; git_run (Checkout [branchName]) ;;
             logger info (CheckedOut branchName target)).
      assert (Hkeeps : Keeps target rest).
      { subst rest.
        repeat first
          [ apply Keeps_git_cwd | apply Keeps_logger
          | apply Keeps_git_run; assumption
          | apply Keeps_configureOrigin; assumption
          | apply Keeps_bind; [|intros ?] ]. }
      set (s0 := mkState w' (gitCwd s)
                         ((trace s ++ [FsExists target]) ++ [FsMkdir target])).
      assert (Hbody : cloneBranchToFolder_try repoUrl branchName parent s
                      = rest s0).
      { unfold cloneBranchToFolder_try.
        fold (branchFolder parent branchName). fold target.
        unfold bind at 1. unfold fs_existsSync at 1. rewrite Hex.
        unfold bind at 1. unfold fs_mkdirSync at 1.
        cbn [record world gitCwd trace]. rewrite Hmk. reflexivity. }
      unfold cloneBranchToFolder, tryCatch. rewrite Hbody.
      assert (H0 : existsSync target (world s0) = true).
      { destruct Hp as [Hmkdir _]. exact (Hmkdir _ _ _ Hmk). }
      specialize (Hkeeps s0 H0).
      destruct (rest s0) as [[a|e] s']; exact Hkeeps. }
  split; [exact Hthere|].
  now apply cloneBranchToFolder_skip.
Qed.

(** X15. Where every folder of the selected branches exists, [cloneRepository]
    leaves everything below the repository folder alone: after the
    listing it makes the existence checks and logs the skips, in the
    order of the branches, and nothing else; the world is the one the
    listing left. *)
Theorem mirrored_branches_are_left_alone
        (repoUrl parent repoName text : string) (cloneAllBranches : bool)
        (bs : list string) (s s1 : State W) :
  listRemoteRefs repoUrl (path_join parent repoName) s = (Returned text, s1) ->
  parseRemoteBranchNames text = Returned bs ->
  let repoFolderPath := path_join parent repoName in
  (forall b, In b (selected cloneAllBranches bs) ->
             existsSync (branchFolder repoFolderPath b) (world s1) = true) ->
  cloneRepository repoUrl parent repoName cloneAllBranches s =
  (Returned tt,
   mkState (world s1) (gitCwd s1)
           (trace s1 ++ announcement text bs
              :: flat_map (fun b => skipEvents (branchFolder repoFolderPath b))
                          (selected cloneAllBranches bs))).
Proof.
  intros Hlist Hparse repoFolderPath Hthere.
  rewrite (cloneRepository_after_listing _ _ _ _ _ _ _ Hlist).
  rewrite (cloneSelected_run _ _ _ _ _ _ Hparse). cbv zeta.
  fold repoFolderPath.
  assert (Hloop : forall (xs : list string) (s0 : State W),
    (forall b, In b xs ->
               existsSync (branchFolder repoFolderPath b) (world s0) = true) ->
    forOf xs (fun b => cloneBranchToFolder repoUrl b repoFolderPath) s0 =
    (Returned tt,
     mkState (world s0) (gitCwd s0)
       (trace s0 ++
        flat_map (fun b => skipEvents (branchFolder repoFolderPath b)) xs))).
  { induction xs as [|x xs IH]; intros s0 H.
    - cbn. rewrite app_nil_r. now destruct s0.
    - cbn [forOf flat_map]. unfold bind.
      rewrite (cloneBranchToFolder_skip _ _ _ _ (H x (or_introl eq_refl))).
      rewrite IH; [|intros b Hb; apply H; now right].
      cbn [world gitCwd trace]. now rewrite <- app_assoc. }
  destruct bs as [|b bs].
  - cbn [selected flat_map]. reflexivity.
  - destruct cloneAllBranches; cbn [selected] in *.
    + rewrite Hloop; [|exact Hthere].
      cbn [record world gitCwd trace]. now rewrite <- app_assoc.
    + rewrite cloneBranchToFolder_skip; [|apply Hthere; now left].
      cbn [record world gitCwd trace flat_map].
      now rewrite app_nil_r, <- app_assoc.
Qed.

End Retry.

(** ** Further runs on the reference host *)

Lemma failed_materialisation_blocks_retry_witness :
  let s := Sim.start (Sim.mkWorld ["root/r"] [] "" []) in
  let s1 := snd (cloneBranchToFolder Sim.url "dev" "root/r" s) in
  terminals (trace s1) = [Failed "dev" "error: pathspec did not match"] /\
  terminals (trace (snd (cloneBranchToFolder Sim.url "dev" "root/r" s1)))
  = [Failed "dev" "error: pathspec did not match"; Skipped "root/r/dev"].
Proof.
  split; [reflexivity|].
  destruct (failed_materialisation_blocks_retry
              Sim.url "dev" "root/r"
              (Sim.start (Sim.mkWorld ["root/r"] [] "" []))
              Sim_folders_persist) as [_ Hskip].
  - right. eexists. reflexivity.
  - rewrite Hskip. reflexivity.
Defined.

Lemma mirrored_branches_are_left_alone_witness :
  exists s1,
    listRemoteRefs Sim.url (path_join "root" "r")
                   (Sim.start Sim.alreadyCloned)
    = (Returned (Sim.listing Sim.alreadyCloned), s1) /\
    world (snd (cloneRepository Sim.url "root" "r" true
                  (Sim.start Sim.alreadyCloned)))
    = world s1.
Proof.
  eexists. split; [reflexivity|].
  rewrite (mirrored_branches_are_left_alone
             Sim.url "root" "r" (Sim.listing Sim.alreadyCloned) true ["main"]
             (Sim.start Sim.alreadyCloned)
             (snd (listRemoteRefs Sim.url (path_join "root" "r")
                     (Sim.start Sim.alreadyCloned)))).
  - reflexivity.
  - reflexivity.
  - reflexivity.
  - intros b [<-|[]]. reflexivity.
Defined.

Lemma setup_failure_attempts_nothing_witness :
  cloneRepository Sim.url "root" "r" true (Sim.start Sim.withMyOrigin)
  = (Returned tt,
     record (Log error (ErrorCloningRepository "error: No such remote"))
            (snd (listRemoteRefs Sim.url (path_join "root" "r")
                    (Sim.start Sim.withMyOrigin)))).
Proof.
  apply (setup_failure_attempts_nothing
           Sim.url "root" "r" true "error: No such remote"
           (Sim.start Sim.withMyOrigin)).
  reflexivity.
Defined.

Lemma materialisation_calls_witness :
  exists evs,
    trace (snd (cloneBranchToFolder Sim.url "main" "root/r"
                  (Sim.start (Sim.mkWorld ["root/r"] [] "" ["main"]))))
    = evs /\
    calls evs = materialiseSteps Sim.url "main" "root/r/main" false.
Proof.
  destruct (materialisation_calls
              Sim.url "main" "root/r"
              (Sim.start (Sim.mkWorld ["root/r"] [] "" ["main"])))
    as [evs [s' [repoint [Hrun [E [_ [Hdone _]]]]]]].
  exists evs.
  assert (Hs' : s' = snd (cloneBranchToFolder Sim.url "main" "root/r"
                  (Sim.start (Sim.mkWorld ["root/r"] [] "" ["main"]))))
    by now rewrite Hrun.
  rewrite <- Hs'. split; [exact E|].
  assert (Hevs : evs = trace s') by exact (eq_sym E).
  assert (Hterm : terminals evs = [Done "main" "root/r/main"])
    by (rewrite Hevs, Hs'; reflexivity).
  rewrite (Hdone Hterm).
  assert (Hrep : calls evs = calls (trace s')) by now rewrite Hevs.
  rewrite (Hdone Hterm), Hs' in Hrep.
  destruct repoint; [discriminate Hrep | reflexivity].
Defined.

Lemma setup_calls_witness :
  exists evs repoint,
    trace (snd (listRemoteRefs Sim.url "root/r" (Sim.start Sim.onlyDevelop)))
    = FsExists "root/r" :: evs /\
    calls evs = setupSteps Sim.url "root/r" false repoint.
Proof.
  destruct (setup_calls Sim.url "root/r" (Sim.start Sim.onlyDevelop))
    as [evs [repoint [E [_ [_ [Hret _]]]]]].
  exists evs, repoint. split; [exact E|].
  exact (Hret (Sim.listing Sim.onlyDevelop) eq_refl).
Defined.

Lemma origin_configuration_calls_witness :
  exists evs repoint,
    trace (snd (configureOrigin "root/r" Sim.url
                  (Sim.start Sim.alreadyCloned))) = evs /\
    calls evs = originSteps "root/r" Sim.url repoint.
Proof.
  destruct (origin_configuration_calls "root/r" Sim.url
              (Sim.start Sim.alreadyCloned))
    as [evs [repoint [E [_ [Hret _]]]]].
  exists evs, repoint. split; [exact E | exact (Hret eq_refl)].
Defined.
